(** * ProyectoImageCaptioning: caption pipeline and training loop

    A shallow embedding of [src/data_processing.py] (tokenizer, vocabulary
    builder, caption corpus loader) and of [src/train_functions.py]
    (training and inference loops), with the properties of the written
    specification stated over it.

    Python [str] values are modelled by [string]: sequences of characters
    with code points below 256.  Python [dict]s are insertion-ordered
    association lists; indices, counts and lengths are [nat]; the integers
    held by tensors and the epoch number are [Z]. *)

From Stdlib Require Import List String Ascii Arith ZArith Bool Lia.
From Stdlib Require Import Permutation Sorted.
Import ListNotations.
Open Scope string_scope.
Open Scope nat_scope.

(** ** Python string primitives *)

Module PyStr.

(** [s.startswith(old)] *)
Fixpoint startswith (old s : string) : bool :=
  match old with
  | EmptyString => true
  | String a old' =>
      match s with
      | EmptyString => false
      | String b s' => Ascii.eqb a b && startswith old' s'
      end
  end.

(** Left-to-right scan of [str.replace]: [skip] counts the characters of a
    matched occurrence that are still to be passed over. *)
Fixpoint replace_from (old new : string) (skip : nat) (s : string) : string :=
  match s with
  | EmptyString => EmptyString
  | String c s' =>
      match skip with
      | S k => replace_from old new k s'
      | O =>
          if startswith old s
          then new ++ replace_from old new (String.length old - 1) s'
          else String c (replace_from old new 0 s')
      end
  end.

Fixpoint intersperse_all (new s : string) : string :=
  match s with
  | EmptyString => EmptyString
  | String c s' => String c (new ++ intersperse_all new s')
  end.

(** [s.replace(old, new)]: every non-overlapping occurrence of [old], found
    from the left, is replaced; an empty [old] matches between characters. *)
Definition replace (old new s : string) : string :=
  match old with
  | EmptyString => new ++ intersperse_all new s
  | String _ _ => replace_from old new 0 s
  end.

Definition code (c : ascii) : nat := nat_of_ascii c.

(** [c.isspace()] on code points below 256 *)
Definition isspace (c : ascii) : bool :=
  let n := code c in
  ((9 <=? n) && (n <=? 13)) || ((28 <=? n) && (n <=? 32))
  || (n =? 133) || (n =? 160).

(** [c.lower()] on code points below 256 *)
Definition lower_char (c : ascii) : ascii :=
  let n := code c in
  if ((65 <=? n) && (n <=? 90))
     || ((192 <=? n) && (n <=? 222) && negb (n =? 215))
  then ascii_of_nat (n + 32) else c.

Fixpoint lower (s : string) : string :=
  match s with
  | EmptyString => EmptyString
  | String c s' => String (lower_char c) (lower s')
  end.

Fixpoint lstrip (s : string) : string :=
  match s with
  | EmptyString => EmptyString
  | String c s' => if isspace c then lstrip s' else s
  end.

Fixpoint rstrip (s : string) : string :=
  match s with
  | EmptyString => EmptyString
  | String c s' =>
      match rstrip s' with
      | EmptyString => if isspace c then EmptyString else String c EmptyString
      | r => String c r
      end
  end.

(** [s.strip()] *)
Definition strip (s : string) : string := rstrip (lstrip s).

(** [s.split()] with no separator: maximal runs of non-space characters.
    [cur] is the word being read, in reverse. *)
Fixpoint split_from (cur : list ascii) (s : string) : list string :=
  let flush := match cur with
               | [] => []
               | _ => [string_of_list_ascii (rev cur)]
               end in
  match s with
  | EmptyString => flush
  | String c s' =>
      if isspace c then (flush ++ split_from [] s')%list
      else split_from (c :: cur) s'
  end.

Definition split (s : string) : list string := split_from [] s.

(** [sep.join(l)] *)
Definition join (sep : string) (l : list string) : string := String.concat sep l.

(** [s[-1]]: [None] stands for the IndexError on the empty string. *)
Fixpoint last_char (s : string) : option ascii :=
  match s with
  | EmptyString => None
  | String c EmptyString => Some c
  | String _ s' => last_char s'
  end.

(** [s[:-1]] *)
Fixpoint drop_last (s : string) : string :=
  match s with
  | EmptyString => EmptyString
  | String _ EmptyString => EmptyString
  | String c s' => String c (drop_last s')
  end.

End PyStr.

(** ** Caption tokenizer ([tokenize], [untokenize]) *)

(** The one-character string holding the double-quote character. *)
Definition dquote : string := String (ascii_of_nat 34) EmptyString.

Definition tokenize (text : string) : string :=
  let text := PyStr.replace "." " <PERIOD> " text in
  let text := PyStr.replace "," " <COMMA> " text in
  let text := PyStr.replace dquote " <QUOTATION_MARK> " text in
  let text := PyStr.replace ";" " <SEMICOLON> " text in
  let text := PyStr.replace "!" " <EXCLAMATION_MARK> " text in
  let text := PyStr.replace "?" " <QUESTION_MARK> " text in
  let text := PyStr.replace "(" " <LEFT_PAREN> " text in
  let text := PyStr.replace ")" " <RIGHT_PAREN> " text in
  let text := PyStr.replace "--" " <HYPHENS> " text in
  let text := PyStr.replace "?" " <QUESTION_MARK> " text in
  let text := PyStr.replace ":" " <COLON> " text in
  text.

Definition untokenize (text : string) : string :=
  let text := PyStr.replace " <PERIOD> " "." text in
  let text := PyStr.replace " <COMMA> " "," text in
  let text := PyStr.replace " <QUOTATION_MARK> " dquote text in
  let text := PyStr.replace " <SEMICOLON> " ";" text in
  let text := PyStr.replace " <EXCLAMATION_MARK> " "!" text in
  let text := PyStr.replace " <QUESTION_MARK> " "?" text in
  let text := PyStr.replace " <LEFT_PAREN> " "(" text in
  let text := PyStr.replace " <RIGHT_PAREN> " ")" text in
  let text := PyStr.replace " <HYPHENS> " "--" text in
  let text := PyStr.replace " <QUESTION_MARK> " "?" text in
  let text := PyStr.replace " <COLON> " ":" text in
  text.


(** ** Python lists and dicts *)

(** Exceptions that the modelled code can raise, and results of fallible
    operations. *)
Inductive exn : Type :=
| IndexError
| ValueError
| RuntimeError
| ExternalError (what : string).

Inductive result (A : Type) : Type :=
| Ok (a : A)
| Raise (e : exn).
Arguments Ok {A} a.
Arguments Raise {A} e.

Module PyList.

(** [l.index(x)]: position of the first element equal to [x]; [None] is
    the ValueError of a missing element. *)
Fixpoint index (x : string) (l : list string) : option nat :=
  match l with
  | [] => None
  | y :: l' => if String.eqb y x then Some 0
               else option_map S (index x l')
  end.

(** [l[i] = v] for [i] in range. *)
Fixpoint set_item {A} (l : list A) (i : nat) (v : A) : list A :=
  match l, i with
  | [], _ => []
  | _ :: l', 0 => v :: l'
  | y :: l', S i' => y :: set_item l' i' v
  end.

(** [enumerate(l)] *)
Definition enumerate {A} (l : list A) : list (nat * A) :=
  combine (seq 0 (List.length l)) l.

(** Insertion of [x] in front of a list sorted by descending key: [x] goes
    before the first element whose key is not greater than its own. *)
Fixpoint insert_desc {A} (key : A -> nat) (x : A) (l : list A) : list A :=
  match l with
  | [] => [x]
  | y :: l' => if key x <? key y then y :: insert_desc key x l'
               else x :: l
  end.

(** [sorted(l, key=key, reverse=True)]: the stable sort by descending key
    (elements with equal keys keep their original order). *)
Fixpoint sorted_desc {A} (key : A -> nat) (l : list A) : list A :=
  match l with
  | [] => []
  | x :: l' => insert_desc key x (sorted_desc key l')
  end.

End PyList.

Module PyDict.
Section Dict.
Context {K V : Type} (eqb : K -> K -> bool).

(** A dict is the list of its items in insertion order. *)
Definition dict : Type := list (K * V).

(** [d.get(k)] *)
Fixpoint get (d : dict) (k : K) : option V :=
  match d with
  | [] => None
  | (k', v) :: d' => if eqb k' k then Some v else get d' k
  end.

(** [d[k] = v]: an existing key keeps its position. *)
Fixpoint set (d : dict) (k : K) (v : V) : dict :=
  match d with
  | [] => [(k, v)]
  | (k', v') :: d' => if eqb k' k then (k', v) :: d'
                      else (k', v') :: set d' k v
  end.

Definition keys (d : dict) : list K := map fst d.
Definition values (d : dict) : list V := map snd d.
Definition items (d : dict) : list (K * V) := d.
Definition len (d : dict) : nat := List.length d.

(** [{k: v for k, v in l}] *)
Definition of_items (l : list (K * V)) : dict :=
  fold_left (fun d kv => set d (fst kv) (snd kv)) l [].
End Dict.
End PyDict.

(** [Counter(words)] *)
Definition Counter (words : list string) : PyDict.dict (K:=string) (V:=nat) :=
  fold_left
    (fun d w =>
       PyDict.set String.eqb d w
         (match PyDict.get String.eqb d w with Some n => n | None => 0 end + 1))
    words [].

(** ** Vocabulary builder ([create_lookup_tables]) *)

(** [word_counts.get] used as a sort key; the words sorted are the keys of
    [word_counts], so the lookup never misses. *)
Definition count_key (word_counts : PyDict.dict) (w : string) : nat :=
  match PyDict.get String.eqb word_counts w with
  | Some n => n
  | None => 0
  end.

Definition create_lookup_tables (words : list string)
  : PyDict.dict (K:=string) (V:=nat) * PyDict.dict (K:=nat) (V:=string) :=
  let word_counts := Counter words in
  let sorted_vocab :=
    PyList.sorted_desc (count_key word_counts) (PyDict.keys word_counts) in
  let int_to_vocab := PyDict.of_items Nat.eqb (PyList.enumerate sorted_vocab) in
  let vocab_to_int :=
    PyDict.of_items String.eqb
      (map (fun iw => (snd iw, fst iw)) (PyDict.items int_to_vocab)) in
  let vocab_to_int :=
    PyDict.set String.eqb vocab_to_int "<PAD>" (PyDict.len vocab_to_int) in
  let int_to_vocab :=
    PyDict.set Nat.eqb int_to_vocab (PyDict.len int_to_vocab) "<PAD>" in
  (vocab_to_int, int_to_vocab).

(** ** Caption corpus loader ([load_image_captions_from_json]) *)

(** The body of the inner loop up to the wrapped caption: normalisation of
    one raw caption. *)
Definition process_caption (caption : string) : result string :=
  let caption_processed :=
    PyStr.replace "'" EmptyString
      (PyStr.replace dquote EmptyString (PyStr.lower caption)) in
  match PyStr.last_char caption_processed with
  | None => Raise IndexError
  | Some c =>
      let caption_processed :=
        if Ascii.eqb c "."%char then PyStr.drop_last caption_processed
        else caption_processed in
      let caption_processed := tokenize caption_processed in
      let caption_processed := PyStr.strip caption_processed in
      let caption_processed := PyStr.join " " (PyStr.split caption_processed) in
      Ok ("<s> " ++ caption_processed ++ " </s>")
  end.

(** [for caption in captions: ...] over one image's list.  The list is
    read at position [i] in its current state and assigned to in place;
    assignments keep its length, so [n] iterations remain when
    [n = len(captions) - i]. *)
Fixpoint captions_loop (n i : nat) (captions word_list : list string)
  : result (list string * list string) :=
  match n with
  | 0 => Ok (captions, word_list)
  | S n' =>
      match nth_error captions i with
      | None => Ok (captions, word_list)
      | Some caption =>
          match process_caption caption with
          | Raise e => Raise e
          | Ok caption_processed =>
              let word_list :=
                (word_list ++ PyStr.split caption_processed)%list in
              match PyList.index caption captions with
              | None => Raise ValueError
              | Some j =>
                  captions_loop n' (S i)
                    (PyList.set_item captions j caption_processed) word_list
              end
          end
      end
  end.

(** [for captions in captions_dict.values(): ...].  Every value of the
    loaded document is a list of its own, so the in-place updates of one
    image's list reach that image's entry only. *)
Fixpoint values_loop (d : PyDict.dict (K:=string) (V:=list string))
  (word_list : list string)
  : result (PyDict.dict (K:=string) (V:=list string) * list string) :=
  match d with
  | [] => Ok ([], word_list)
  | (image, captions) :: d' =>
      match captions_loop (List.length captions) 0 captions word_list with
      | Raise e => Raise e
      | Ok (captions', word_list) =>
          match values_loop d' word_list with
          | Raise e => Raise e
          | Ok (d'', word_list) => Ok ((image, captions') :: d'', word_list)
          end
      end
  end.

(** The loader, from the document that [json.load] returned. *)
Definition load_image_captions_from_json
  (captions_dict : PyDict.dict (K:=string) (V:=list string))
  : result (PyDict.dict (K:=string) (V:=list string) * list string) :=
  let word_list := [] in
  values_loop captions_dict word_list.

(** ** Tensors

    A tensor is its shape and its elements in logical row-major order.
    Device moves and dtype casts ([.to(device)], [.float()], [.long()])
    leave both unchanged and are the identity here. *)

Record tensor (A : Type) : Type := Tensor { shape : list nat; data : list A }.
Arguments Tensor {A} shape data.
Arguments shape {A} t.
Arguments data {A} t.

Module Torch.
Section Ops.
Context {A : Type}.

Definition numel_of (sh : list nat) : nat := fold_right Nat.mul 1 sh.

Definition to (t : tensor A) (device : string) : tensor A := t.
Definition float (t : tensor A) : tensor A := t.
Definition long (t : tensor A) : tensor A := t.

Definition opt_list (o : option A) : list A :=
  match o with Some x => [x] | None => [] end.

(** [t.permute(1, 0)]: defined on 2-D tensors; element [(j, i)] of the
    result is element [(i, j)] of [t]. *)
Definition permute_1_0 (t : tensor A) : result (tensor A) :=
  match shape t with
  | [r; c] =>
      Ok (Tensor [c; r]
            (flat_map
               (fun j =>
                  flat_map (fun i => opt_list (nth_error (data t) (i * c + j)))
                    (seq 0 r))
               (seq 0 c)))
  | _ => Raise RuntimeError
  end.

(** [t[:-1]]: all but the last index of the first dimension. *)
Definition slice_to_minus1 (t : tensor A) : result (tensor A) :=
  match shape t with
  | [] => Raise IndexError
  | d0 :: rest =>
      Ok (Tensor ((d0 - 1) :: rest)
            (firstn ((d0 - 1) * numel_of rest) (data t)))
  end.

(** [t[0]] *)
Definition index_0 (t : tensor A) : result (tensor A) :=
  match shape t with
  | [] => Raise IndexError
  | 0 :: _ => Raise IndexError
  | S _ :: rest => Ok (Tensor rest (firstn (numel_of rest) (data t)))
  end.

(** [t.unsqueeze(0)] *)
Definition unsqueeze_0 (t : tensor A) : tensor A :=
  Tensor (1 :: shape t) (data t).

(** [t.shape[i]] *)
Definition shape_at (t : tensor A) (i : nat) : result nat :=
  match nth_error (shape t) i with
  | Some d => Ok d
  | None => Raise IndexError
  end.

(** [t.reshape(-1)] *)
Definition reshape_flat (t : tensor A) : tensor A :=
  Tensor [numel_of (shape t)] (data t).

(** [t.reshape(-1, k)]: the first dimension is inferred; it cannot be
    when [k] is zero or does not divide the number of elements. *)
Definition reshape_rows (t : tensor A) (k : nat) : result (tensor A) :=
  let n := numel_of (shape t) in
  if k =? 0 then Raise RuntimeError
  else if n mod k =? 0 then Ok (Tensor [n / k; k] (data t))
  else Raise RuntimeError.
End Ops.
End Torch.

(** ** Training and inference loops ([train_step], [t_step])

    The model, the loss, the optimizer and the metric writer are external
    collaborators.  Their effect on the outside world [W] (parameters,
    gradients, optimizer state, metric files) is abstract; every call to
    one of them is recorded, in order, in a trace. *)

Inductive event (Pix Score : Type) : Type :=
| EvModelTo (device : string)
| EvModelTrain
| EvModelEval
| EvZeroGrad
| EvForward (inputs : tensor Pix) (captions : tensor Z)
| EvLoss (input : tensor Score) (target : tensor Z)
| EvBackward
| EvOptimizerStep
| EvAddScalar (tag : string) (scalar_value : Score) (global_step : Z)
| EvGeneraCaptions (image : tensor Pix).
Arguments EvModelTo {Pix Score} device.
Arguments EvModelTrain {Pix Score}.
Arguments EvModelEval {Pix Score}.
Arguments EvZeroGrad {Pix Score}.
Arguments EvForward {Pix Score} inputs captions.
Arguments EvLoss {Pix Score} input target.
Arguments EvBackward {Pix Score}.
Arguments EvOptimizerStep {Pix Score}.
Arguments EvAddScalar {Pix Score} tag scalar_value global_step.
Arguments EvGeneraCaptions {Pix Score} image.

(** What a Python function hands back: [None], or a sequence. *)
Inductive pyret (Item : Type) : Type :=
| PyNone
| PySeq (l : list Item).
Arguments PyNone {Item}.
Arguments PySeq {Item} l.

Section Loops.
Context {W Pix Score LossT Item : Type}.

Record state : Type := State { world : W; trace : list (event Pix Score) }.

(** Computations that read and change the state and may raise. *)
Definition M (A : Type) : Type := state -> state * result A.

Definition ret {A} (a : A) : M A := fun s => (s, Ok a).
Definition raise {A} (e : exn) : M A := fun s => (s, Raise e).
Definition bind {A B} (m : M A) (k : A -> M B) : M B :=
  fun s => match m s with
           | (s', Ok a) => k a s'
           | (s', Raise e) => (s', Raise e)
           end.
Definition lift {A} (r : result A) : M A := fun s => (s, r).

(** A call to a collaborator: the event is recorded, then the
    collaborator acts on the world and answers or raises. *)
Definition call {A} (e : event Pix Score) (f : W -> result (W * A)) : M A :=
  fun s =>
    let tr := (trace s ++ [e])%list in
    match f (world s) with
    | Ok (w', a) => (State w' tr, Ok a)
    | Raise x => (State (world s) tr, Raise x)
    end.

(** [for x in l: body x] *)
Fixpoint for_each {X} (l : list X) (body : X -> M unit) : M unit :=
  match l with
  | [] => ret tt
  | x :: l' => bind (body x) (fun _ => for_each l' body)
  end.

(** [for x in l: acc = body acc x] with a loop-carried local. *)
Fixpoint for_fold {X Acc} (l : list X) (acc : Acc) (body : Acc -> X -> M Acc)
  : M Acc :=
  match l with
  | [] => ret acc
  | x :: l' => bind (body acc x) (fun acc' => for_fold l' acc' body)
  end.

(** The collaborators, as the loops use them. *)
Record Module_ : Type := {
  model_to : string -> W -> result (W * unit);
  model_train : W -> result (W * unit);
  model_eval : W -> result (W * unit);
  model_call : tensor Pix -> tensor Z -> W -> result (W * tensor Score);
  model_genera_captions :
    tensor Pix -> PyDict.dict (K:=nat) (V:=string) -> W
    -> result (W * list Item)
}.

Record Loss : Type := {
  loss_call : tensor Score -> tensor Z -> W -> result (W * LossT);
  loss_backward : LossT -> W -> result (W * unit);
  loss_item : LossT -> Score
}.

Record Optimizer : Type := {
  zero_grad : W -> result (W * unit);
  step : W -> result (W * unit)
}.

Record SummaryWriter : Type := {
  add_scalar : string -> Score -> Z -> W -> result (W * unit)
}.

Local Notation "x <- m ;; k" := (bind m (fun x => k))
  (at level 61, m at next level, right associativity).
Local Notation "m ;; k" := (bind m (fun _ => k))
  (at level 61, right associativity).

Definition train_step (model : Module_) (train_data : list (tensor Pix * tensor Z))
  (loss : Loss) (optimizer : Optimizer) (writer : SummaryWriter)
  (epoch : Z) (device : string) : M unit :=
  call (EvModelTo device) (model_to model device) ;;
  call EvModelTrain (model_train model) ;;
  for_each train_data (fun batch =>
    let '(inputs, targets) := batch in
    let inputs := Torch.to inputs device in
    let targets := Torch.to targets device in
    let inputs := Torch.float inputs in
    let targets := Torch.long targets in
    targets <- lift (Torch.permute_1_0 targets) ;;
    call EvZeroGrad (zero_grad optimizer) ;;
    prefix <- lift (Torch.slice_to_minus1 targets) ;;
    outputs <- call (EvForward inputs prefix) (model_call model inputs prefix) ;;
    vocab <- lift (Torch.shape_at outputs 2) ;;
    outputs_reshaped <- lift (Torch.reshape_rows outputs vocab) ;;
    let targets_reshaped := Torch.reshape_flat targets in
    loss_value <-
      call (EvLoss outputs_reshaped targets_reshaped)
        (loss_call loss outputs_reshaped targets_reshaped) ;;
    call EvBackward (loss_backward loss loss_value) ;;
    call EvOptimizerStep (step optimizer) ;;
    call (EvAddScalar "Loss/train" (loss_item loss loss_value) epoch)
      (add_scalar writer "Loss/train" (loss_item loss loss_value) epoch)) ;;
  ret tt.

Definition t_step (model : Module_) (data_ : list (tensor Pix * tensor Z))
  (device : string) (word2_idx : PyDict.dict (K:=string) (V:=nat))
  (idx2_word : PyDict.dict (K:=nat) (V:=string)) : M (pyret Item) :=
  call (EvModelTo device) (model_to model device) ;;
  call EvModelEval (model_eval model) ;;
  let predictions := [] in
  predictions <-
    for_fold data_ predictions (fun predictions batch =>
      let '(inputs, targets) := batch in
      let inputs := Torch.to inputs device in
      let inputs := Torch.float inputs in
      first <- lift (Torch.index_0 inputs) ;;
      let image := Torch.unsqueeze_0 first in
      captions <-
        call (EvGeneraCaptions image)
          (model_genera_captions model image idx2_word) ;;
      ret (predictions ++ captions)%list) ;;
  ret PyNone.

End Loops.

(** ** Auxiliary notions used by the statements and proofs *)

(** *** Tagged text

    A tokenized text seen as a sequence of symbols: plain characters and
    the padded tags that stand for the punctuation marks. *)

Inductive mark : Type :=
| Period | Comma | QuotationMark | Semicolon | ExclamationMark
| QuestionMark | LeftParen | RightParen | Hyphens | Colon.

Definition name_of (m : mark) : string :=
  match m with
  | Period => "<PERIOD>"
  | Comma => "<COMMA>"
  | QuotationMark => "<QUOTATION_MARK>"
  | Semicolon => "<SEMICOLON>"
  | ExclamationMark => "<EXCLAMATION_MARK>"
  | QuestionMark => "<QUESTION_MARK>"
  | LeftParen => "<LEFT_PAREN>"
  | RightParen => "<RIGHT_PAREN>"
  | Hyphens => "<HYPHENS>"
  | Colon => "<COLON>"
  end.

Definition tag_of (m : mark) : string := String " " (name_of m ++ " ").

Definition punct_of (m : mark) : string :=
  match m with
  | Period => "."
  | Comma => ","
  | QuotationMark => dquote
  | Semicolon => ";"
  | ExclamationMark => "!"
  | QuestionMark => "?"
  | LeftParen => "("
  | RightParen => ")"
  | Hyphens => "--"
  | Colon => ":"
  end.

Definition mark_eqb (m1 m2 : mark) : bool :=
  match m1, m2 with
  | Period, Period | Comma, Comma | QuotationMark, QuotationMark
  | Semicolon, Semicolon | ExclamationMark, ExclamationMark
  | QuestionMark, QuestionMark | LeftParen, LeftParen
  | RightParen, RightParen | Hyphens, Hyphens | Colon, Colon => true
  | _, _ => false
  end.

Inductive sym : Type :=
| Ch (c : ascii)
| Tg (m : mark).

Fixpoint render (l : list sym) : string :=
  match l with
  | [] => EmptyString
  | Ch c :: l' => String c (render l')
  | Tg m :: l' => tag_of m ++ render l'
  end.

Fixpoint chars (s : string) : list sym :=
  match s with
  | EmptyString => []
  | String c s' => Ch c :: chars s'
  end.

(** No plain character of the text is the opening angle bracket. *)
Fixpoint no_lt (l : list sym) : bool :=
  match l with
  | [] => true
  | Ch c :: l' => negb (Ascii.eqb c "<") && no_lt l'
  | Tg _ :: l' => no_lt l'
  end.

(** One tokenizer step on symbols, for a one-character mark. *)
Definition sub1 (a : ascii) (m : mark) (x : sym) : sym :=
  match x with
  | Ch c => if Ascii.eqb a c then Tg m else x
  | Tg _ => x
  end.

(** The double-hyphen step on symbols. *)
Fixpoint sub_hyph (l : list sym) : list sym :=
  match l with
  | [] => []
  | Tg m :: l1 => Tg m :: sub_hyph l1
  | Ch c1 :: l1 =>
      if Ascii.eqb "-" c1 then
        match l1 with
        | Ch c2 :: l2 =>
            if Ascii.eqb "-" c2 then Tg Hyphens :: sub_hyph l2
            else Ch c1 :: sub_hyph l1
        | _ => Ch c1 :: sub_hyph l1
        end
      else Ch c1 :: sub_hyph l1
  end.

(** One untokenizer step on symbols. *)
Definition unsub1 (m : mark) (x : sym) : list sym :=
  match x with
  | Ch _ => [x]
  | Tg m' => if mark_eqb m m' then chars (punct_of m) else [x]
  end.

Definition unsub (m : mark) (l : list sym) : list sym := flat_map (unsub1 m) l.

Definition tokenize_syms (l : list sym) : list sym :=
  let l := map (sub1 "." Period) l in
  let l := map (sub1 "," Comma) l in
  let l := map (sub1 (ascii_of_nat 34) QuotationMark) l in
  let l := map (sub1 ";" Semicolon) l in
  let l := map (sub1 "!" ExclamationMark) l in
  let l := map (sub1 "?" QuestionMark) l in
  let l := map (sub1 "(" LeftParen) l in
  let l := map (sub1 ")" RightParen) l in
  let l := sub_hyph l in
  let l := map (sub1 "?" QuestionMark) l in
  let l := map (sub1 ":" Colon) l in
  l.

Definition untokenize_syms (l : list sym) : list sym :=
  let l := unsub Period l in
  let l := unsub Comma l in
  let l := unsub QuotationMark l in
  let l := unsub Semicolon l in
  let l := unsub ExclamationMark l in
  let l := unsub QuestionMark l in
  let l := unsub LeftParen l in
  let l := unsub RightParen l in
  let l := unsub Hyphens l in
  let l := unsub QuestionMark l in
  let l := unsub Colon l in
  l.

(** [c] occurs in [s]. *)
Fixpoint occurs (c : ascii) (s : string) : bool :=
  match s with
  | EmptyString => false
  | String b s' => Ascii.eqb c b || occurs c s'
  end.

(** ASCII punctuation ([string.punctuation]). *)
Definition is_punctuation (c : ascii) : bool :=
  let n := PyStr.code c in
  ((33 <=? n) && (n <=? 47)) || ((58 <=? n) && (n <=? 64))
  || ((91 <=? n) && (n <=? 96)) || ((123 <=? n) && (n <=? 126)).

(** The characters of the ten recognized marks. *)
Definition is_mark_char (c : ascii) : bool :=
  occurs c ".,;!?()-:" || Ascii.eqb c (ascii_of_nat 34).

(** Text made of plain words (no punctuation) and recognized marks. *)
Fixpoint plain_text (s : string) : bool :=
  match s with
  | EmptyString => true
  | String c s' => (negb (is_punctuation c) || is_mark_char c) && plain_text s'
  end.

(** The eight one-character steps before the double-hyphen step, and the
    two after it, on one symbol. *)
Definition pre_hyph (x : sym) : sym :=
  sub1 ")" RightParen
    (sub1 "(" LeftParen
       (sub1 "?" QuestionMark
          (sub1 "!" ExclamationMark
             (sub1 ";" Semicolon
                (sub1 (ascii_of_nat 34) QuotationMark
                   (sub1 "," Comma (sub1 "." Period x))))))).

Definition post_hyph (x : sym) : sym :=
  sub1 ":" Colon (sub1 "?" QuestionMark x).

(** *** Vocabulary notions *)

(** One step of [Counter]: a word is counted once more. *)
Definition counter_step (d : PyDict.dict (K:=string) (V:=nat)) (w : string)
  : PyDict.dict (K:=string) (V:=nat) :=
  PyDict.set String.eqb d w (count_key d w + 1).

(** The local [sorted_vocab] of [create_lookup_tables]. *)
Definition sorted_vocab_of (words : list string) : list string :=
  PyList.sorted_desc (count_key (Counter words)) (PyDict.keys (Counter words)).

Definition swap_item (iw : nat * string) : string * nat := (snd iw, fst iw).

(** Descending order of keys. *)
Definition key_desc {A : Type} (key : A -> nat) (a b : A) : Prop :=
  key b <= key a.

(** Descending order of the counts of a sequence. *)
Definition by_count_desc (words : list string) (a b : string) : Prop :=
  count_occ string_dec words b <= count_occ string_dec words a.

(** Number of distinct tokens of a sequence. *)
Definition distinct_count (words : list string) : nat :=
  List.length (nodup string_dec words).

(** Both sides of a vocabulary invert each other on every entry. *)
Definition mutual_inverses
  (tables : PyDict.dict (K:=string) (V:=nat) * PyDict.dict (K:=nat) (V:=string))
  : Prop :=
  (forall w i, In (w, i) (PyDict.items (fst tables)) ->
               PyDict.get Nat.eqb (snd tables) i = Some w)
  /\ (forall i w, In (i, w) (PyDict.items (snd tables)) ->
                  PyDict.get String.eqb (fst tables) w = Some i).

(** The indices given to words are exactly [0..N], each once, the keys of
    the reverse table are exactly [0..N], and the padding symbol sits at
    [N] and nowhere else. *)
Definition dense_with_pad_last (words : list string) : Prop :=
  let N := distinct_count words in
  let tables := create_lookup_tables words in
  (forall i, In i (PyDict.values (fst tables)) <-> i <= N)
  /\ NoDup (PyDict.values (fst tables))
  /\ (forall i, In i (PyDict.keys (snd tables)) <-> i <= N)
  /\ PyDict.get String.eqb (fst tables) "<PAD>" = Some N
  /\ (forall i, PyDict.get Nat.eqb (snd tables) i = Some "<PAD>" <-> i = N).

(** More frequent words get lower indices. *)
Definition frequency_ordered (words : list string) (w1 w2 : string) : Prop :=
  exists i1 i2,
    PyDict.get String.eqb (fst (create_lookup_tables words)) w1 = Some i1
    /\ PyDict.get String.eqb (fst (create_lookup_tables words)) w2 = Some i2
    /\ i1 < i2.

(** *** Loader notions *)

(** A caption as the loader sees it just before looking at its last
    character: lowercased, quote characters removed. *)
Definition quote_stripped (caption : string) : string :=
  PyStr.replace "'" EmptyString
    (PyStr.replace dquote EmptyString (PyStr.lower caption)).

(** *** Observations on traces *)

Section TraceObservers.
Context {Pix Score : Type}.

(** Arguments of the calls to the loss, in order. *)
Definition loss_calls (tr : list (event Pix Score))
  : list (tensor Score * tensor Z) :=
  flat_map (fun e => match e with
                     | EvLoss input target => [(input, target)]
                     | _ => []
                     end) tr.

(** Arguments of the calls to the model, in order. *)
Definition forward_calls (tr : list (event Pix Score))
  : list (tensor Pix * tensor Z) :=
  flat_map (fun e => match e with
                     | EvForward inputs captions => [(inputs, captions)]
                     | _ => []
                     end) tr.

(** Number of calls to [optimizer.step]. *)
Definition optimizer_steps (tr : list (event Pix Score)) : nat :=
  List.length (flat_map (fun e => match e with
                                  | EvOptimizerStep => [tt]
                                  | _ => []
                                  end) tr).

(** Entries written to the metric sink, in order. *)
Definition scalars (tr : list (event Pix Score))
  : list (string * Score * Z) :=
  flat_map (fun e => match e with
                     | EvAddScalar tag value global_step =>
                         [(tag, value, global_step)]
                     | _ => []
                     end) tr.

(** The collaborator calls of one iteration of the training loop on a
    batch: the model is given the sequence-major targets without their
    last step, the loss the whole sequence-major targets, flattened. *)
Definition batch_trace (epoch : Z) (batch : tensor Pix * tensor Z)
  (tr : list (event Pix Score)) : Prop :=
  exists targets prefix outputs_reshaped value,
    Torch.permute_1_0 (snd batch) = Ok targets
    /\ Torch.slice_to_minus1 targets = Ok prefix
    /\ tr = [EvZeroGrad;
             EvForward (fst batch) prefix;
             EvLoss outputs_reshaped (Torch.reshape_flat targets);
             EvBackward;
             EvOptimizerStep;
             EvAddScalar "Loss/train" value epoch].
End TraceObservers.

(** What the training loop hands to the loss as target, and to the model
    as captions, for a batch of targets. *)
Definition loss_target_of (targets : tensor Z) : result (tensor Z) :=
  match Torch.permute_1_0 targets with
  | Ok t => Ok (Torch.reshape_flat t)
  | Raise e => Raise e
  end.

Definition model_captions_of (targets : tensor Z) : result (tensor Z) :=
  match Torch.permute_1_0 targets with
  | Ok t => Torch.slice_to_minus1 t
  | Raise e => Raise e
  end.

(** *** Sample collaborators

    A model that emits one step of three scores per sample for the image
    and for each step of the captions it is given, and whose caption
    generator returns one caption; a loss that wants as many score rows as
    targets; an optimizer and a writer that always succeed.  The world is
    trivial. *)

Definition sample_model
  : Module_ (W:=unit) (Pix:=nat) (Score:=nat) (Item:=string) :=
  {| model_to := fun _ w => Ok (w, tt);
     model_train := fun w => Ok (w, tt);
     model_eval := fun w => Ok (w, tt);
     model_call := fun _ captions w =>
       match shape captions with
       | [steps; batch] =>
           Ok (w, Tensor [S steps; batch; 3] (repeat 0 (S steps * batch * 3)))
       | _ => Raise (ExternalError "captions must be 2-D")
       end;
     model_genera_captions := fun _ _ w => Ok (w, ["<s> a dog </s>"]) |}.

Definition sample_loss : Loss (W:=unit) (Score:=nat) (LossT:=nat) :=
  {| loss_call := fun input target w =>
       match shape input, shape target with
       | [rows; _], [n] =>
           if rows =? n then Ok (w, 0)
           else Raise (ExternalError "input and target sizes differ")
       | _, _ => Raise (ExternalError "unexpected shapes")
       end;
     loss_backward := fun _ w => Ok (w, tt);
     loss_item := fun l => l |}.

Definition sample_optimizer : Optimizer (W:=unit) :=
  {| zero_grad := fun w => Ok (w, tt); step := fun w => Ok (w, tt) |}.

Definition sample_writer : SummaryWriter (W:=unit) (Score:=nat) :=
  {| add_scalar := fun _ _ _ w => Ok (w, tt) |}.

Definition sample_state : state (W:=unit) (Pix:=nat) (Score:=nat) :=
  State tt [].

(** A batch of one 1x1 image whose caption has the two indices 5 and 7
    (batch size 1, sequence length 2). *)
Definition sample_batch : tensor nat * tensor Z :=
  (Tensor [1; 1; 1] [0], Tensor [1; 2] [5%Z; 7%Z]).

Definition sample_idx2_word : PyDict.dict (K:=nat) (V:=string) :=
  [(0, "<s>"); (1, "a"); (2, "dog"); (3, "</s>"); (4, "<PAD>")].

Definition sample_word2_idx : PyDict.dict (K:=string) (V:=nat) :=
  [("<s>", 0); ("a", 1); ("dog", 2); ("</s>", 3); ("<PAD>", 4)].

(** The state after the training loop has run over the sample batch. *)
Definition sample_trained_state : state (W:=unit) (Pix:=nat) (Score:=nat) :=
  fst (train_step sample_model [sample_batch] sample_loss sample_optimizer
         sample_writer 3%Z "cpu" sample_state).

(** The reading under which the loss is given the targets without their
    first step: for [B] sequences of [L] steps, [B * (L - 1)] target
    indices against as many rows of scores. *)
Definition shifted_target_counts {Pix Score : Type}
  (batch : tensor Pix * tensor Z) (loss_args : tensor Score * tensor Z)
  : Prop :=
  forall B L,
    shape (snd batch) = [B; L] ->
    List.length (data (snd loss_args)) = B * (L - 1)
    /\ hd 0 (shape (fst loss_args)) = B * (L - 1).

(** *** Marks left in a text *)

(** [s] begins with a hyphen. *)
Definition starts_hyphen (s : string) : bool :=
  match s with
  | String c _ => Ascii.eqb c "-"
  | EmptyString => false
  end.

(** [s] holds two hyphens in a row. *)
Fixpoint has_double_hyphen (s : string) : bool :=
  match s with
  | EmptyString => false
  | String c s' => (Ascii.eqb c "-" && starts_hyphen s') || has_double_hyphen s'
  end.

(** [s] holds none of the nine one-character marks and no double hyphen:
    nothing in it for [tokenize] to replace. *)
Definition mark_free (s : string) : bool :=
  negb (occurs "." s) && negb (occurs "," s)
  && negb (occurs (ascii_of_nat 34) s) && negb (occurs ";" s)
  && negb (occurs "!" s) && negb (occurs "?" s)
  && negb (occurs "(" s) && negb (occurs ")" s)
  && negb (occurs ":" s) && negb (has_double_hyphen s).

(** *** Order of appearance in a list *)

(** [a] stands somewhere before an occurrence of [b]. *)
Inductive precedes {A : Type} (a b : A) : list A -> Prop :=
| precedes_here l : In b l -> precedes a b (a :: l)
| precedes_skip x l : precedes a b l -> precedes a b (x :: l).

(** *** The loader on whole splits *)

(** The tokens that a raw caption adds to the word list, and the caption
    that replaces it. *)
Definition caption_tokens (caption : string) : list string :=
  match process_caption caption with
  | Ok caption_processed => PyStr.split caption_processed
  | Raise _ => []
  end.

Definition normalized_caption (caption : string) : string :=
  match process_caption caption with
  | Ok caption_processed => caption_processed
  | Raise _ => caption
  end.

(** [load_and_process_captions_flickr8k], from the three documents that
    [json.load] returns for the train, validation and test files once
    [organize_caption_flickr8k] has written them. *)
Definition load_and_process_captions_flickr8k
  (train val test : PyDict.dict (K:=string) (V:=list string))
  : result (PyDict.dict (K:=string) (V:=list string)
            * PyDict.dict (K:=string) (V:=list string)
            * PyDict.dict (K:=string) (V:=list string)
            * list string) :=
  match load_image_captions_from_json train with
  | Raise e => Raise e
  | Ok (captions_dict_train, word_list) =>
      match load_image_captions_from_json val with
      | Raise e => Raise e
      | Ok (captions_dict_val, _) =>
          match load_image_captions_from_json test with
          | Raise e => Raise e
          | Ok (captions_dict_test, _) =>
              Ok (captions_dict_train, captions_dict_val,
                  captions_dict_test, word_list)
          end
      end
  end.

(** *** More observations on traces *)

Section MoreObservers.
Context {Pix Score : Type}.

(** Number of calls to [optimizer.zero_grad]. *)
Definition zero_grad_calls (tr : list (event Pix Score)) : nat :=
  List.length (flat_map (fun e => match e with
                                  | EvZeroGrad => [tt]
                                  | _ => []
                                  end) tr).

(** Images given to [model.genera_captions], in order. *)
Definition genera_captions_calls (tr : list (event Pix Score))
  : list (tensor Pix) :=
  flat_map (fun e => match e with
                     | EvGeneraCaptions image => [image]
                     | _ => []
                     end) tr.
End MoreObservers.

(** The first sample of a batch, as a batch of one: [inputs[0].unsqueeze(0)]. *)
Definition first_sample {A : Type} (inputs : tensor A) : result (tensor A) :=
  match Torch.index_0 inputs with
  | Ok first => Ok (Torch.unsqueeze_0 first)
  | Raise e => Raise e
  end.


Definition flat_targets_batch : tensor nat * tensor Z :=
  (Tensor [1; 1; 1] [0], Tensor [2] [5%Z; 7%Z]).

Definition empty_batch : tensor nat * tensor Z :=
  (Tensor [0; 1; 1] [], Tensor [0; 2] []).

(** ** Validation loop ([val_step])

    The loop calls [model.generate_caption] and prints; it is given a trace
    of its own kinds of calls.  The loss and the writer it receives are
    never used. *)

Inductive val_event (Pix Caption : Type) : Type :=
| ValModelTo (device : string)
| ValModelEval
| ValGenerateCaption (image : tensor Pix)
| ValPrint (caption : Caption).
Arguments ValModelTo {Pix Caption} device.
Arguments ValModelEval {Pix Caption}.
Arguments ValGenerateCaption {Pix Caption} image.
Arguments ValPrint {Pix Caption} caption.

(** How an iteration of a loop ends: with the next one, or at a [break]. *)
Inductive flow : Type := Continue | Break.

Section ValLoop.
Context {W Pix Caption LossM Writer : Type}.

Record val_state : Type :=
  ValState { val_world : W; val_trace : list (val_event Pix Caption) }.

Definition VM (A : Type) : Type := val_state -> val_state * result A.

Definition vret {A} (a : A) : VM A := fun s => (s, Ok a).
Definition vbind {A B} (m : VM A) (k : A -> VM B) : VM B :=
  fun s => match m s with
           | (s', Ok a) => k a s'
           | (s', Raise e) => (s', Raise e)
           end.
Definition vlift {A} (r : result A) : VM A := fun s => (s, r).

Definition vcall {A} (e : val_event Pix Caption) (f : W -> result (W * A))
  : VM A :=
  fun s =>
    let tr := (val_trace s ++ [e])%list in
    match f (val_world s) with
    | Ok (w', a) => (ValState w' tr, Ok a)
    | Raise x => (ValState (val_world s) tr, Raise x)
    end.

(** [print('Caption:', caption)] *)
Definition print (caption : Caption) : VM unit :=
  fun s =>
    (ValState (val_world s) (val_trace s ++ [ValPrint caption])%list, Ok tt).

(** [for x in l: body x], where the body may [break]. *)
Fixpoint for_each_break {X} (l : list X) (body : X -> VM flow) : VM unit :=
  match l with
  | [] => vret tt
  | x :: l' =>
      vbind (body x) (fun f =>
        match f with
        | Break => vret tt
        | Continue => for_each_break l' body
        end)
  end.

Record ValModule : Type := {
  val_model_to : string -> W -> result (W * unit);
  val_model_eval : W -> result (W * unit);
  val_model_generate_caption :
    tensor Pix -> PyDict.dict (K:=nat) (V:=string) -> W
    -> result (W * Caption)
}.

Local Notation "x <- m ;; k" := (vbind m (fun x => k))
  (at level 61, m at next level, right associativity).
Local Notation "m ;; k" := (vbind m (fun _ => k))
  (at level 61, right associativity).

Definition val_step (model : ValModule) (val_data : list (tensor Pix * tensor Z))
  (loss : LossM) (writer : Writer) (epoch : Z) (device : string)
  (word2_idx : PyDict.dict (K:=string) (V:=nat))
  (idx2_word : PyDict.dict (K:=nat) (V:=string)) : VM unit :=
  vcall (ValModelTo device) (val_model_to model device) ;;
  vcall ValModelEval (val_model_eval model) ;;
  for_each_break val_data (fun batch =>
    let '(inputs, targets) := batch in
    let inputs := Torch.to inputs device in
    let targets := Torch.to targets device in
    let inputs := Torch.float inputs in
    let targets := Torch.long targets in
    first <- vlift (Torch.index_0 inputs) ;;
    caption <-
      vcall (ValGenerateCaption (Torch.unsqueeze_0 first))
        (val_model_generate_caption model (Torch.unsqueeze_0 first)
           idx2_word) ;;
    print caption ;;
    vret Break).

End ValLoop.

(** Images given to [model.generate_caption], in order. *)
Definition generate_caption_calls {Pix Caption : Type}
  (tr : list (val_event Pix Caption)) : list (tensor Pix) :=
  flat_map (fun e => match e with
                     | ValGenerateCaption image => [image]
                     | _ => []
                     end) tr.

Definition sample_val_model
  : ValModule (W:=unit) (Pix:=nat) (Caption:=string) :=
  {| val_model_to := fun _ w => Ok (w, tt);
     val_model_eval := fun w => Ok (w, tt);
     val_model_generate_caption := fun _ _ w => Ok (w, "<s> a dog </s>") |}.

(** ** Splitting of the images ([download_and_prepare_flickr8k_dataset])

    The three lists that the preparation computes from the list of image
    files.  [cut n] stands for [int(n * 0.8)], a floating-point product
    truncated to a non-negative integer. *)

Definition split_images {A : Type} (cut : nat -> nat) (images_list : list A)
  : list A * list A * list A :=
  let test_images := skipn (cut (List.length images_list)) images_list in
  let train_images := firstn (cut (List.length images_list)) images_list in
  let val_images := skipn (cut (List.length train_images)) train_images in
  let train_images := firstn (cut (List.length train_images)) train_images in
  (train_images, val_images, test_images).

(** * Properties *)

(** ** Strings and replacement *)

Lemma string_app_assoc (a b c : string) : ((a ++ b) ++ c = a ++ (b ++ c))%string.
Proof. induction a as [|x a IH]; simpl; [reflexivity | now rewrite IH]. Qed.

Lemma replace_from_cons0 old new c s :
  PyStr.replace_from old new 0 (String c s) =
  if PyStr.startswith old (String c s)
  then (new ++ PyStr.replace_from old new (String.length old - 1) s)%string
  else String c (PyStr.replace_from old new 0 s).
Proof. reflexivity. Qed.

Lemma replace_from_skip old new t rest :
  PyStr.replace_from old new (String.length t) (t ++ rest) =
  PyStr.replace_from old new 0 rest.
Proof.
  induction t as [|c t IH]; simpl.
  - destruct rest; reflexivity.
  - exact IH.
Qed.

Lemma startswith_app old rest : PyStr.startswith old (old ++ rest) = true.
Proof.
  induction old as [|a old IH]; simpl; [reflexivity|].
  now rewrite Ascii.eqb_refl, IH.
Qed.

Lemma replace_from_match a old new rest :
  PyStr.replace_from (String a old) new 0 (String a old ++ rest) =
  (new ++ PyStr.replace_from (String a old) new 0 rest)%string.
Proof.
  change (String a old ++ rest)%string with (String a (old ++ rest)).
  rewrite replace_from_cons0.
  change (String a (old ++ rest)) with (String a old ++ rest)%string.
  rewrite startswith_app.
  f_equal.
  replace (String.length (String a old) - 1) with (String.length old)
    by (simpl; lia).
  apply replace_from_skip.
Qed.

Lemma replace_from_pass a old new t rest :
  occurs a t = false ->
  PyStr.replace_from (String a old) new 0 (t ++ rest) =
  (t ++ PyStr.replace_from (String a old) new 0 rest)%string.
Proof.
  induction t as [|c t IH]; intros H; [reflexivity|].
  cbn [occurs] in H. apply orb_false_iff in H as [Hc Ht].
  cbn [append]. rewrite replace_from_cons0. cbn [PyStr.startswith].
  rewrite Hc. cbn [andb]. now rewrite IH.
Qed.

(** ** Tagged text *)

Lemma render_app l1 l2 : render (l1 ++ l2) = (render l1 ++ render l2)%string.
Proof.
  induction l1 as [|[c|m] l1 IH]; cbn [render app];
    [reflexivity | now rewrite IH |].
  now rewrite IH, string_app_assoc.
Qed.

Lemma render_chars s : render (chars s) = s.
Proof. induction s as [|c s IH]; simpl; [reflexivity | now rewrite IH]. Qed.

Lemma no_lt_app l1 l2 : no_lt (l1 ++ l2) = no_lt l1 && no_lt l2.
Proof.
  induction l1 as [|[c|m] l1 IH]; simpl; [reflexivity | | exact IH].
  now rewrite IH, andb_assoc.
Qed.

Lemma no_lt_chars s : occurs "<" s = false -> no_lt (chars s) = true.
Proof.
  induction s as [|c s IH]; cbn [occurs chars no_lt]; [reflexivity|].
  intros H. apply orb_false_iff in H as [Hc Hs].
  rewrite Ascii.eqb_sym, Hc. cbn [negb andb]. auto.
Qed.

Lemma mark_eqb_eq m1 m2 : mark_eqb m1 m2 = true -> m1 = m2.
Proof. destruct m1, m2; simpl; intros H; (reflexivity || discriminate H). Qed.

(** *** The tokenizer steps on tagged text *)

Lemma replace_char_render a m l :
  (forall m', occurs a (tag_of m') = false) ->
  PyStr.replace (String a EmptyString) (tag_of m) (render l) =
  render (map (sub1 a m) l).
Proof.
  intros Hfree. unfold PyStr.replace.
  induction l as [|[c|m'] l IH].
  - reflexivity.
  - cbn [render map sub1]. rewrite replace_from_cons0.
    cbn [PyStr.startswith]. rewrite andb_true_r.
    destruct (Ascii.eqb a c).
    + cbn [render String.length Nat.sub]. now rewrite IH.
    + cbn [render]. now rewrite IH.
  - cbn [render map sub1].
    rewrite replace_from_pass by apply Hfree.
    now rewrite IH.
Qed.

Lemma sub_hyph_other c l :
  Ascii.eqb "-" c = false -> sub_hyph (Ch c :: l) = Ch c :: sub_hyph l.
Proof. intros H. cbn [sub_hyph]. now rewrite H. Qed.

Lemma sub_hyph_pair l :
  sub_hyph (Ch "-" :: Ch "-" :: l) = Tg Hyphens :: sub_hyph l.
Proof. reflexivity. Qed.

Lemma sub_hyph_single_ch c l :
  Ascii.eqb "-" c = false ->
  sub_hyph (Ch "-" :: Ch c :: l) = Ch "-" :: sub_hyph (Ch c :: l).
Proof.
  intros H. rewrite (sub_hyph_other c l H).
  cbn [sub_hyph]. rewrite H. reflexivity.
Qed.

Lemma sub_hyph_single_tg m l :
  sub_hyph (Ch "-" :: Tg m :: l) = Ch "-" :: sub_hyph (Tg m :: l).
Proof. reflexivity. Qed.

Lemma replace_hyphens_render_le n :
  forall l, List.length l <= n ->
  PyStr.replace "--" (tag_of Hyphens) (render l) = render (sub_hyph l).
Proof.
  unfold PyStr.replace.
  induction n as [|n IH]; intros l Hl.
  - destruct l; [reflexivity | simpl in Hl; lia].
  - destruct l as [|[c1|m] l1]; [reflexivity | |].
    + cbn [List.length] in Hl. cbn [render]. rewrite replace_from_cons0.
      cbn [PyStr.startswith].
      destruct (Ascii.eqb "-" c1) eqn:E1.
      * apply Ascii.eqb_eq in E1. subst c1.
        destruct l1 as [|[c2|m] l2].
        -- reflexivity.
        -- cbn [render]. destruct (Ascii.eqb "-" c2) eqn:E2.
           ++ apply Ascii.eqb_eq in E2. subst c2.
              rewrite sub_hyph_pair.
              cbn [andb String.length Nat.sub PyStr.replace_from render].
              rewrite IH by (cbn [List.length] in Hl; lia). reflexivity.
           ++ rewrite (sub_hyph_single_ch c2 l2 E2).
              cbn [andb render].
              rewrite <- (IH (Ch c2 :: l2)) by (cbn [List.length] in *; lia).
              reflexivity.
        -- rewrite sub_hyph_single_tg. cbn [render].
           rewrite <- (IH (Tg m :: l2)) by (cbn [List.length] in *; lia).
           destruct m; reflexivity.
      * rewrite (sub_hyph_other c1 l1 E1).
        cbn [andb render]. rewrite IH by lia. reflexivity.
    + cbn [List.length] in Hl. cbn [render sub_hyph].
      rewrite replace_from_pass by (destruct m; reflexivity).
      rewrite IH by lia. reflexivity.
Qed.

Lemma replace_hyphens_render l :
  PyStr.replace "--" (tag_of Hyphens) (render l) = render (sub_hyph l).
Proof. apply (replace_hyphens_render_le (List.length l)). lia. Qed.

(** *** The untokenizer steps on tagged text *)

Lemma head_not_name m l :
  no_lt l = true -> PyStr.startswith (name_of m ++ " ") (render l) = false.
Proof.
  intros H. destruct l as [|[c|m'] l].
  - destruct m; reflexivity.
  - cbn [no_lt] in H. apply andb_true_iff in H as [Hc _].
    apply negb_true_iff in Hc. rewrite Ascii.eqb_sym in Hc.
    destruct m; cbn [name_of append render PyStr.startswith];
      rewrite Hc; reflexivity.
  - destruct m, m'; reflexivity.
Qed.

Lemma pass_name m new b rest :
  occurs " " b = false ->
  PyStr.startswith (name_of m ++ " ") rest = false ->
  PyStr.replace_from (tag_of m) new 0 (b ++ String " " rest) =
  (b ++ String " " (PyStr.replace_from (tag_of m) new 0 rest))%string.
Proof.
  intros Hb Hrest. unfold tag_of.
  induction b as [|c b IH]; cbn [append].
  - rewrite replace_from_cons0. cbn [PyStr.startswith].
    rewrite Hrest, andb_false_r. reflexivity.
  - cbn [occurs] in Hb. apply orb_false_iff in Hb as [Hc Hb].
    rewrite replace_from_cons0. cbn [PyStr.startswith].
    rewrite Hc. cbn [andb]. now rewrite IH.
Qed.

Lemma startswith_other_tag m m' rest :
  mark_eqb m m' = false ->
  PyStr.startswith (tag_of m) (tag_of m' ++ rest) = false.
Proof. destruct m, m'; intros H; (discriminate H || reflexivity). Qed.

Lemma tag_of_app m rest :
  (tag_of m ++ rest)%string = String " " (name_of m ++ String " " rest).
Proof.
  unfold tag_of. cbn [append]. now rewrite string_app_assoc.
Qed.

Lemma replace_from_match_tag m new rest :
  PyStr.replace_from (tag_of m) new 0 (tag_of m ++ rest) =
  (new ++ PyStr.replace_from (tag_of m) new 0 rest)%string.
Proof. unfold tag_of. apply replace_from_match. Qed.

Lemma replace_tag_render m l :
  no_lt l = true ->
  PyStr.replace (tag_of m) (punct_of m) (render l) = render (unsub m l).
Proof.
  change (PyStr.replace (tag_of m) (punct_of m) (render l))
    with (PyStr.replace_from (tag_of m) (punct_of m) 0 (render l)).
  induction l as [|[c|m'] l IH]; intros Hl.
  - reflexivity.
  - cbn [no_lt] in Hl. apply andb_true_iff in Hl as [Hc Hl].
    cbn [render unsub flat_map unsub1 app].
    rewrite replace_from_cons0. unfold tag_of at 1.
    cbn [PyStr.startswith]. rewrite (head_not_name m l Hl), andb_false_r.
    unfold unsub in IH. now rewrite IH.
  - cbn [no_lt] in Hl.
    cbn [render unsub flat_map unsub1].
    destruct (mark_eqb m m') eqn:E.
    + apply mark_eqb_eq in E. subst m'.
      rewrite replace_from_match_tag.
      rewrite render_app, render_chars.
      unfold unsub in IH. now rewrite IH.
    + cbn [app render].
      pose proof (startswith_other_tag m m' (render l) E) as Hs.
      rewrite tag_of_app in *. rewrite replace_from_cons0, Hs.
      rewrite pass_name;
        [ | destruct m'; reflexivity | apply head_not_name; exact Hl ].
      unfold unsub in IH. rewrite (IH Hl), tag_of_app. reflexivity.
Qed.

Lemma no_lt_unsub m l : no_lt l = true -> no_lt (unsub m l) = true.
Proof.
  unfold unsub. induction l as [|[c|m'] l IH]; intros H.
  - reflexivity.
  - cbn [no_lt] in H. apply andb_true_iff in H as [Hc H].
    cbn [flat_map unsub1 app no_lt]. rewrite Hc. auto.
  - cbn [no_lt] in H. cbn [flat_map]. rewrite no_lt_app, (IH H), andb_true_r.
    destruct m, m'; reflexivity.
Qed.

Lemma no_lt_sub1 a m l : no_lt l = true -> no_lt (map (sub1 a m) l) = true.
Proof.
  induction l as [|[c|m'] l IH]; intros H; [reflexivity | | exact (IH H)].
  cbn [no_lt] in H. apply andb_true_iff in H as [Hc H].
  cbn [map sub1]. destruct (Ascii.eqb a c); cbn [no_lt]; [auto|].
  rewrite Hc. auto.
Qed.

Lemma no_lt_sub_hyph_le n :
  forall l, List.length l <= n -> no_lt l = true -> no_lt (sub_hyph l) = true.
Proof.
  induction n as [|n IH]; intros l Hn H.
  - destruct l; [reflexivity | cbn [List.length] in Hn; lia].
  - destruct l as [|[c1|m] l1]; [reflexivity | |].
    + cbn [List.length] in Hn. cbn [no_lt] in H.
      apply andb_true_iff in H as [Hc1 H1].
      cbn [sub_hyph].
      destruct (Ascii.eqb "-" c1).
      * destruct l1 as [|[c2|m] l2].
        -- cbn [sub_hyph no_lt]. now rewrite Hc1.
        -- destruct (Ascii.eqb "-" c2).
           ++ cbn [no_lt] in *. apply andb_true_iff in H1 as [_ H2].
              apply IH; [cbn [List.length] in Hn; lia | exact H2].
           ++ cbn [no_lt]. rewrite Hc1. cbn [andb]. apply IH; [lia | exact H1].
        -- cbn [no_lt]. rewrite Hc1. cbn [andb]. apply IH; [lia | exact H1].
      * cbn [no_lt]. rewrite Hc1. cbn [andb]. apply IH; [lia | exact H1].
    + cbn [List.length] in Hn. cbn [no_lt sub_hyph] in *. apply IH; [lia | exact H].
Qed.

Lemma no_lt_tokenize_syms l : no_lt l = true -> no_lt (tokenize_syms l) = true.
Proof.
  intros H. unfold tokenize_syms.
  repeat (apply no_lt_sub1).
  eapply no_lt_sub_hyph_le; [reflexivity|].
  repeat (apply no_lt_sub1). exact H.
Qed.

Lemma tokenize_render l : tokenize (render l) = render (tokenize_syms l).
Proof.
  unfold tokenize, tokenize_syms.
  rewrite (replace_char_render "." Period) by (intros []; reflexivity).
  rewrite (replace_char_render "," Comma) by (intros []; reflexivity).
  unfold dquote.
  rewrite (replace_char_render (ascii_of_nat 34) QuotationMark)
    by (intros []; reflexivity).
  rewrite (replace_char_render ";" Semicolon) by (intros []; reflexivity).
  rewrite (replace_char_render "!" ExclamationMark) by (intros []; reflexivity).
  rewrite (replace_char_render "?" QuestionMark) by (intros []; reflexivity).
  rewrite (replace_char_render "(" LeftParen) by (intros []; reflexivity).
  rewrite (replace_char_render ")" RightParen) by (intros []; reflexivity).
  rewrite replace_hyphens_render.
  rewrite (replace_char_render "?" QuestionMark) by (intros []; reflexivity).
  rewrite (replace_char_render ":" Colon) by (intros []; reflexivity).
  reflexivity.
Qed.

Lemma untokenize_render l :
  no_lt l = true -> untokenize (render l) = render (untokenize_syms l).
Proof.
  intros H. unfold untokenize, untokenize_syms.
  rewrite (replace_tag_render Period) by exact H.
  pose proof (no_lt_unsub Period _ H) as H1.
  rewrite (replace_tag_render Comma) by exact H1.
  pose proof (no_lt_unsub Comma _ H1) as H2.
  rewrite (replace_tag_render QuotationMark) by exact H2.
  pose proof (no_lt_unsub QuotationMark _ H2) as H3.
  rewrite (replace_tag_render Semicolon) by exact H3.
  pose proof (no_lt_unsub Semicolon _ H3) as H4.
  rewrite (replace_tag_render ExclamationMark) by exact H4.
  pose proof (no_lt_unsub ExclamationMark _ H4) as H5.
  rewrite (replace_tag_render QuestionMark) by exact H5.
  pose proof (no_lt_unsub QuestionMark _ H5) as H6.
  rewrite (replace_tag_render LeftParen) by exact H6.
  pose proof (no_lt_unsub LeftParen _ H6) as H7.
  rewrite (replace_tag_render RightParen) by exact H7.
  pose proof (no_lt_unsub RightParen _ H7) as H8.
  rewrite (replace_tag_render Hyphens) by exact H8.
  pose proof (no_lt_unsub Hyphens _ H8) as H9.
  rewrite (replace_tag_render QuestionMark) by exact H9.
  pose proof (no_lt_unsub QuestionMark _ H9) as H10.
  rewrite (replace_tag_render Colon) by exact H10.
  reflexivity.
Qed.

(** *** Round trip on symbols *)

Lemma tokenize_syms_fused l :
  tokenize_syms l = map post_hyph (sub_hyph (map pre_hyph l)).
Proof.
  unfold tokenize_syms. rewrite !map_map. reflexivity.
Qed.

Lemma untokenize_syms_app l1 l2 :
  untokenize_syms (l1 ++ l2) = (untokenize_syms l1 ++ untokenize_syms l2)%list.
Proof.
  unfold untokenize_syms, unsub. now rewrite !flat_map_app.
Qed.

Lemma untokenize_syms_cons x l :
  untokenize_syms (x :: l) = (untokenize_syms [x] ++ untokenize_syms l)%list.
Proof. exact (untokenize_syms_app [x] l). Qed.

Lemma untokenize_syms_tag m : untokenize_syms [Tg m] = chars (punct_of m).
Proof. destruct m; reflexivity. Qed.

Lemma untokenize_post_char c : untokenize_syms [post_hyph (Ch c)] = [Ch c].
Proof.
  destruct c as [[] [] [] [] [] [] [] []]; reflexivity.
Qed.

(** A character is turned into its tag before the hyphen step, or left
    alone. *)
Lemma pre_hyph_cases c :
  (exists m, pre_hyph (Ch c) = Tg m /\ chars (punct_of m) = [Ch c])
  \/ pre_hyph (Ch c) = Ch c.
Proof.
  destruct c as [[] [] [] [] [] [] [] []];
    solve [ right; reflexivity
          | left; eexists; split; reflexivity ].
Qed.

Lemma post_hyph_tag m : post_hyph (Tg m) = Tg m.
Proof. reflexivity. Qed.

Lemma syms_round_trip_le n :
  forall s, String.length s <= n ->
  untokenize_syms (map post_hyph (sub_hyph (map pre_hyph (chars s)))) = chars s.
Proof.
  induction n as [|n IH]; intros s Hn.
  - destruct s; [reflexivity | cbn [String.length] in Hn; lia].
  - destruct s as [|c1 s1]; [reflexivity|].
    cbn [String.length] in Hn.
    assert (IH1 := IH s1 ltac:(lia)).
    cbn [chars map].
    destruct (pre_hyph_cases c1) as [(m & Hm & Hp) | Hc].
    + rewrite Hm. cbn [sub_hyph map]. rewrite post_hyph_tag.
      rewrite untokenize_syms_cons, untokenize_syms_tag, Hp, IH1.
      reflexivity.
    + rewrite Hc.
      destruct (Ascii.eqb "-" c1) eqn:E1.
      * apply Ascii.eqb_eq in E1. subst c1.
        destruct s1 as [|c2 s2]; [reflexivity|].
        cbn [chars map] in *.
        destruct (pre_hyph_cases c2) as [(m & Hm & Hp) | Hc2].
        -- rewrite Hm in *. rewrite sub_hyph_single_tg. cbn [map].
           rewrite untokenize_syms_cons, untokenize_post_char, IH1.
           reflexivity.
        -- rewrite Hc2 in *.
           destruct (Ascii.eqb "-" c2) eqn:E2.
           ++ apply Ascii.eqb_eq in E2. subst c2.
              rewrite sub_hyph_pair. cbn [map]. rewrite post_hyph_tag.
              rewrite untokenize_syms_cons, untokenize_syms_tag.
              cbn [String.length] in Hn.
              rewrite (IH s2) by lia. reflexivity.
           ++ rewrite (sub_hyph_single_ch c2 _ E2). cbn [map].
              rewrite untokenize_syms_cons, untokenize_post_char, IH1.
              reflexivity.
      * rewrite (sub_hyph_other c1 _ E1). cbn [map].
        rewrite untokenize_syms_cons, untokenize_post_char, IH1.
        reflexivity.
Qed.

Lemma syms_round_trip s : untokenize_syms (tokenize_syms (chars s)) = chars s.
Proof.
  rewrite tokenize_syms_fused. apply (syms_round_trip_le (String.length s)). lia.
Qed.

(** The round trip holds for every text without an opening angle bracket:
    each tag of the tokenized text then comes from a mark. *)
Lemma untokenize_tokenize_no_lt s :
  occurs "<" s = false -> untokenize (tokenize s) = s.
Proof.
  intros H. apply no_lt_chars in H.
  rewrite <- (render_chars s) at 1.
  rewrite tokenize_render, untokenize_render
    by (apply no_lt_tokenize_syms; exact H).
  rewrite syms_round_trip. apply render_chars.
Qed.

Lemma plain_text_no_lt s : plain_text s = true -> occurs "<" s = false.
Proof.
  induction s as [|c s IH]; [reflexivity|].
  cbn [plain_text occurs]. intros H. apply andb_true_iff in H as [Hc Hs].
  rewrite (IH Hs), orb_false_r.
  destruct (Ascii.eqb_spec "<" c) as [<-|]; [discriminate Hc | reflexivity].
Qed.

(** C3: for every text [s] made of plain words (characters that are not
    punctuation) and the ten recognized marks, untokenizing the tokenized
    text gives [s] back. *)
Theorem untokenize_tokenize_plain_text (s : string) :
  plain_text s = true -> untokenize (tokenize s) = s.
Proof.
  intros H. apply untokenize_tokenize_no_lt, plain_text_no_lt, H.
Qed.

Lemma untokenize_tokenize_plain_text_witness :
  plain_text "Wait -- a dog (small, brown); it runs: where? there!" = true
  /\ untokenize
       (tokenize "Wait -- a dog (small, brown); it runs: where? there!")
     = "Wait -- a dog (small, brown); it runs: where? there!".
Proof.
  split; [reflexivity|].
  apply (untokenize_tokenize_plain_text
           "Wait -- a dog (small, brown); it runs: where? there!").
  reflexivity.
Defined.

(** ** Dicts *)

Open Scope list_scope.

Section DictFacts.
Context {K V : Type} (eqb : K -> K -> bool).
Hypothesis eqb_eq : forall a b, eqb a b = true <-> a = b.

Lemma eqb_refl_true a : eqb a a = true.
Proof. now apply eqb_eq. Qed.

Lemma eqb_neq_false a b : a <> b -> eqb a b = false.
Proof.
  intros H. destruct (eqb a b) eqn:E; [|reflexivity].
  apply eqb_eq in E. contradiction.
Qed.

Lemma get_set (d : PyDict.dict (K:=K) (V:=V)) k v k' :
  PyDict.get eqb (PyDict.set eqb d k v) k' =
  if eqb k k' then Some v else PyDict.get eqb d k'.
Proof.
  induction d as [|[k0 v0] d IH]; simpl.
  - destruct (eqb k k'); reflexivity.
  - destruct (eqb k0 k) eqn:E0; simpl.
    + apply eqb_eq in E0. subst k0.
      destruct (eqb k k'); reflexivity.
    + rewrite IH. destruct (eqb k0 k') eqn:E1; [|reflexivity].
      apply eqb_eq in E1. subst k0.
      destruct (eqb k k') eqn:E2; [|reflexivity].
      apply eqb_eq in E2. subst k. rewrite eqb_refl_true in E0. discriminate.
Qed.

Lemma get_None_notin (d : PyDict.dict (K:=K) (V:=V)) k :
  PyDict.get eqb d k = None <-> ~ In k (PyDict.keys d).
Proof.
  induction d as [|[k0 v0] d IH]; simpl.
  - tauto.
  - destruct (eqb k0 k) eqn:E.
    + apply eqb_eq in E. subst. split; [discriminate | tauto].
    + rewrite IH. split; [|tauto].
      intros H [H1|H1]; [|tauto].
      subst. rewrite eqb_refl_true in E. discriminate.
Qed.

Lemma set_fresh (d : PyDict.dict (K:=K) (V:=V)) k v :
  ~ In k (PyDict.keys d) -> PyDict.set eqb d k v = (d ++ [(k, v)])%list.
Proof.
  induction d as [|[k0 v0] d IH]; simpl; intros H; [reflexivity|].
  rewrite eqb_neq_false by tauto. rewrite IH by tauto. reflexivity.
Qed.

Lemma keys_set_present (d : PyDict.dict (K:=K) (V:=V)) k v :
  In k (PyDict.keys d) -> PyDict.keys (PyDict.set eqb d k v) = PyDict.keys d.
Proof.
  induction d as [|[k0 v0] d IH]; simpl; intros H; [tauto|].
  destruct (eqb k0 k) eqn:E; simpl; [reflexivity|].
  f_equal. apply IH. destruct H as [H|H]; [|exact H].
  subst. rewrite eqb_refl_true in E. discriminate.
Qed.

Lemma get_Some_In (d : PyDict.dict (K:=K) (V:=V)) k v :
  NoDup (PyDict.keys d) ->
  (PyDict.get eqb d k = Some v <-> In (k, v) d).
Proof.
  induction d as [|[k0 v0] d IH]; simpl; intros H.
  - split; [discriminate | tauto].
  - inversion H as [|? ? Hnot Hnd]; subst.
    destruct (eqb k0 k) eqn:E.
    + apply eqb_eq in E. subst k0. split.
      * intros [= ->]. now left.
      * intros [[= ->]|Hin]; [reflexivity|].
        exfalso. apply Hnot. apply (in_map fst) in Hin. exact Hin.
    + rewrite (IH Hnd). split; [tauto|].
      intros [[= -> ->]|Hin]; [|exact Hin].
      rewrite eqb_refl_true in E. discriminate.
Qed.

Lemma In_set (d : PyDict.dict (K:=K) (V:=V)) k v k' v' :
  NoDup (PyDict.keys d) ->
  In (k', v') (PyDict.set eqb d k v) ->
  (k' = k /\ v' = v) \/ (k' <> k /\ In (k', v') d).
Proof.
  induction d as [|[k0 v0] d IH]; simpl; intros Hnd H.
  - destruct H as [[= -> ->]|[]]. now left.
  - inversion Hnd as [|? ? Hnot Hnd']; subst.
    destruct (eqb k0 k) eqn:E.
    + apply eqb_eq in E. subst k0.
      destruct H as [[= -> ->]|H]; [now left|].
      right. split; [|now right].
      intros ->. apply Hnot. apply (in_map fst) in H. exact H.
    + destruct H as [[= -> ->]|H].
      * right. split; [|now left].
        intros ->. rewrite eqb_refl_true in E. discriminate.
      * destruct (IH Hnd' H) as [?|[? ?]]; [now left|].
        right. split; [assumption | now right].
Qed.

(** A comprehension over items with distinct keys lists them as they are. *)
Lemma of_items_from (l : list (K * V)) :
  forall d, NoDup (PyDict.keys (d ++ l)) ->
  fold_left (fun d kv => PyDict.set eqb d (fst kv) (snd kv)) l d = (d ++ l)%list.
Proof.
  induction l as [|[k v] l IH]; intros d H; simpl.
  - now rewrite app_nil_r.
  - rewrite set_fresh.
    + rewrite IH; rewrite <- app_assoc; [reflexivity | exact H].
    + unfold PyDict.keys in *. rewrite map_app in H. simpl in H.
      apply NoDup_remove_2 in H. intros Hin. apply H.
      apply in_or_app. now left.
Qed.

Lemma of_items_nodup (l : list (K * V)) :
  NoDup (map fst l) -> PyDict.of_items eqb l = l.
Proof. intros H. unfold PyDict.of_items. now rewrite of_items_from. Qed.
End DictFacts.

Section DictKeys.
Context {K V : Type} (eqb : K -> K -> bool).
Hypothesis eqb_eq : forall a b, eqb a b = true <-> a = b.

Lemma keys_set_cases (d : PyDict.dict (K:=K) (V:=V)) k v :
  (In k (PyDict.keys d)
   /\ PyDict.keys (PyDict.set eqb d k v) = PyDict.keys d)
  \/ (~ In k (PyDict.keys d)
      /\ PyDict.keys (PyDict.set eqb d k v) = PyDict.keys d ++ [k]).
Proof.
  destruct (PyDict.get eqb d k) eqn:E.
  - left. assert (In k (PyDict.keys d)) as Hin.
    { destruct (get_None_notin eqb eqb_eq d k) as [_ H].
      induction d as [|[k0 x0] d IH]; [discriminate E|].
      simpl in *. destruct (eqb k0 k) eqn:E0.
      - left. now apply eqb_eq.
      - right. apply IH; [exact E|].
        intros Hn. apply (get_None_notin eqb eqb_eq d k). exact Hn. }
    split; [exact Hin|]. now apply keys_set_present.
  - right. apply (get_None_notin eqb eqb_eq) in E.
    split; [exact E|]. rewrite (set_fresh eqb eqb_eq) by exact E.
    unfold PyDict.keys. now rewrite map_app.
Qed.

Lemma keys_set_In (d : PyDict.dict (K:=K) (V:=V)) k v k' :
  In k' (PyDict.keys (PyDict.set eqb d k v)) <-> k' = k \/ In k' (PyDict.keys d).
Proof.
  destruct (keys_set_cases d k v) as [[Hin ->]|[Hnot ->]].
  - split; [tauto|]. intros [->|H]; assumption.
  - rewrite in_app_iff. simpl. intuition congruence.
Qed.

Lemma keys_set_NoDup (d : PyDict.dict (K:=K) (V:=V)) k v :
  NoDup (PyDict.keys d) -> NoDup (PyDict.keys (PyDict.set eqb d k v)).
Proof.
  intros H. destruct (keys_set_cases d k v) as [[Hin ->]|[Hnot ->]];
    [exact H|].
  apply NoDup_app; [exact H | repeat constructor; simpl; tauto |].
  intros x Hx [<-|[]]. contradiction.
Qed.
End DictKeys.

Lemma string_eqb_eq (a b : string) : String.eqb a b = true <-> a = b.
Proof. apply String.eqb_eq. Qed.

Lemma nat_eqb_eq (a b : nat) : Nat.eqb a b = true <-> a = b.
Proof. apply Nat.eqb_eq. Qed.

(** ** Word counts *)

Lemma Counter_fold words :
  Counter words = fold_left counter_step words [].
Proof. reflexivity. Qed.

Lemma count_key_step d w w' :
  count_key (counter_step d w) w' =
  count_key d w' + (if string_dec w w' then 1 else 0).
Proof.
  unfold counter_step, count_key at 1.
  rewrite (get_set String.eqb string_eqb_eq).
  destruct (string_dec w w') as [->|Hne].
  - now rewrite String.eqb_refl.
  - apply String.eqb_neq in Hne. rewrite Hne. unfold count_key. lia.
Qed.

Lemma counter_count words :
  forall d w,
  count_key (fold_left counter_step words d) w =
  count_key d w + count_occ string_dec words w.
Proof.
  induction words as [|x words IH]; intros d w; simpl; [lia|].
  rewrite IH, count_key_step.
  destruct (string_dec x w); lia.
Qed.

Lemma counter_keys_In words :
  forall d w,
  In w (PyDict.keys (fold_left counter_step words d)) <->
  In w (PyDict.keys d) \/ In w words.
Proof.
  induction words as [|x words IH]; intros d w; simpl; [tauto|].
  rewrite IH. unfold counter_step.
  rewrite (keys_set_In String.eqb string_eqb_eq).
  intuition congruence.
Qed.

Lemma counter_keys_NoDup words :
  forall d, NoDup (PyDict.keys d) ->
  NoDup (PyDict.keys (fold_left counter_step words d)).
Proof.
  induction words as [|x words IH]; intros d H; simpl; [exact H|].
  apply IH. now apply (keys_set_NoDup String.eqb string_eqb_eq).
Qed.

Lemma Counter_count words w :
  count_key (Counter words) w = count_occ string_dec words w.
Proof. rewrite Counter_fold, counter_count. reflexivity. Qed.

Lemma Counter_keys_In words w :
  In w (PyDict.keys (Counter words)) <-> In w words.
Proof. rewrite Counter_fold, counter_keys_In. simpl. tauto. Qed.

Lemma Counter_keys_NoDup words : NoDup (PyDict.keys (Counter words)).
Proof. rewrite Counter_fold. apply counter_keys_NoDup. constructor. Qed.

Lemma Counter_keys_length words :
  List.length (PyDict.keys (Counter words)) = distinct_count words.
Proof.
  unfold distinct_count. apply Permutation_length.
  apply NoDup_Permutation.
  - apply Counter_keys_NoDup.
  - apply NoDup_nodup.
  - intros w. now rewrite Counter_keys_In, nodup_In.
Qed.

(** ** Stable descending sort *)

Section SortFacts.
Context {A : Type} (key : A -> nat).

Local Abbreviation R := (key_desc key).

Lemma insert_desc_perm x l :
  Permutation (PyList.insert_desc key x l) (x :: l).
Proof.
  induction l as [|y l IH]; simpl; [reflexivity|].
  destruct (key x <? key y); [|reflexivity].
  rewrite IH. apply perm_swap.
Qed.

Lemma sorted_desc_perm l : Permutation (PyList.sorted_desc key l) l.
Proof.
  induction l as [|x l IH]; simpl; [reflexivity|].
  rewrite insert_desc_perm. now constructor.
Qed.

Lemma insert_desc_sorted x l :
  StronglySorted R l -> StronglySorted R (PyList.insert_desc key x l).
Proof.
  induction l as [|y l IH]; intros H; simpl.
  - repeat constructor.
  - inversion H as [|? ? Hs Hf]; subst.
    destruct (key x <? key y) eqn:E.
    + apply Nat.ltb_lt in E. constructor; [now apply IH|].
      apply (Permutation_Forall (Permutation_sym (insert_desc_perm x l))).
      constructor; [unfold R; lia | exact Hf].
    + apply Nat.ltb_ge in E. constructor; [exact H|].
      constructor; [exact E|].
      eapply Forall_impl; [|exact Hf].
      unfold R. intros z Hz. lia.
Qed.

Lemma sorted_desc_sorted l : StronglySorted R (PyList.sorted_desc key l).
Proof.
  induction l as [|x l IH]; simpl; [constructor|].
  now apply insert_desc_sorted.
Qed.

Lemma sorted_desc_nth l i j a b :
  i < j ->
  nth_error (PyList.sorted_desc key l) i = Some a ->
  nth_error (PyList.sorted_desc key l) j = Some b ->
  key b <= key a.
Proof.
  generalize (sorted_desc_sorted l).
  generalize (PyList.sorted_desc key l) as s.
  intros s Hs. revert i j.
  induction Hs as [|y s Hs IH Hf]; intros i j Hij Ha Hb.
  - destruct i; discriminate Ha.
  - destruct j as [|j]; [lia|]. simpl in Hb.
    destruct i as [|i].
    + injection Ha as <-. apply nth_error_In in Hb.
      rewrite Forall_forall in Hf. exact (Hf b Hb).
    + simpl in Ha. apply (IH i j); [lia | exact Ha | exact Hb].
Qed.
End SortFacts.

(** ** Enumeration *)

Lemma In_combine_seq {A} (l : list A) :
  forall s i w,
  In (i, w) (combine (seq s (List.length l)) l) <->
  s <= i /\ nth_error l (i - s) = Some w.
Proof.
  induction l as [|x l IH]; intros s i w; simpl.
  - split; [tauto|]. intros [_ H]. destruct (i - s); discriminate H.
  - rewrite IH. split.
    + intros [[= <- <-]|[Hle Hn]].
      * rewrite Nat.sub_diag. split; [lia | reflexivity].
      * split; [lia|]. replace (i - s) with (S (i - S s)) by lia. exact Hn.
    + intros [Hle Hn]. destruct (i - s) as [|k] eqn:E.
      * left. injection Hn as <-. f_equal. lia.
      * right. split; [lia|]. replace (i - S s) with k by lia. exact Hn.
Qed.

Lemma In_enumerate {A} (l : list A) i w :
  In (i, w) (PyList.enumerate l) <-> nth_error l i = Some w.
Proof.
  unfold PyList.enumerate. rewrite In_combine_seq, Nat.sub_0_r.
  split; [tauto | intros H; split; [lia | exact H]].
Qed.

Lemma enumerate_fst {A} (l : list A) :
  map fst (PyList.enumerate l) = seq 0 (List.length l).
Proof.
  unfold PyList.enumerate. generalize 0.
  induction l as [|x l IH]; intros s; simpl; [reflexivity|].
  now rewrite IH.
Qed.

Lemma enumerate_snd {A} (l : list A) : map snd (PyList.enumerate l) = l.
Proof.
  unfold PyList.enumerate. generalize 0.
  induction l as [|x l IH]; intros s; simpl; [reflexivity|].
  now rewrite IH.
Qed.

Lemma enumerate_length {A} (l : list A) :
  List.length (PyList.enumerate l) = List.length l.
Proof. rewrite <- (length_map fst), enumerate_fst. apply length_seq. Qed.

(** ** The vocabulary tables *)

Lemma sorted_vocab_perm words :
  Permutation (sorted_vocab_of words) (PyDict.keys (Counter words)).
Proof. apply sorted_desc_perm. Qed.

Lemma sorted_vocab_NoDup words : NoDup (sorted_vocab_of words).
Proof.
  apply (Permutation_NoDup (Permutation_sym (sorted_vocab_perm words))).
  apply Counter_keys_NoDup.
Qed.

Lemma sorted_vocab_In words w : In w (sorted_vocab_of words) <-> In w words.
Proof.
  rewrite <- (Counter_keys_In words w). split; apply Permutation_in.
  - apply sorted_vocab_perm.
  - symmetry. apply sorted_vocab_perm.
Qed.

Lemma sorted_vocab_length words :
  List.length (sorted_vocab_of words) = distinct_count words.
Proof.
  rewrite <- Counter_keys_length. apply Permutation_length, sorted_vocab_perm.
Qed.

Lemma sorted_vocab_order words i j a b :
  i < j ->
  nth_error (sorted_vocab_of words) i = Some a ->
  nth_error (sorted_vocab_of words) j = Some b ->
  count_occ string_dec words b <= count_occ string_dec words a.
Proof.
  intros Hij Ha Hb. rewrite <- !Counter_count.
  exact (sorted_desc_nth _ _ i j a b Hij Ha Hb).
Qed.

Lemma swapped_keys sv :
  PyDict.keys (map swap_item (PyList.enumerate sv)) = sv.
Proof.
  unfold PyDict.keys. rewrite map_map. apply enumerate_snd.
Qed.

Lemma swapped_values sv :
  PyDict.values (map swap_item (PyList.enumerate sv)) = seq 0 (List.length sv).
Proof.
  unfold PyDict.values. rewrite map_map. apply enumerate_fst.
Qed.

Lemma In_swapped sv w i :
  In (w, i) (map swap_item (PyList.enumerate sv)) <-> nth_error sv i = Some w.
Proof.
  rewrite <- In_enumerate, in_map_iff. split.
  - intros [[i' w'] [[= <- <-] H]]. exact H.
  - intros H. exists (i, w). split; [reflexivity | exact H].
Qed.

(** The two tables in closed form: the sorted words numbered from 0, then
    the padding symbol assigned the next number on each side. *)
Lemma create_lookup_tables_eq words :
  create_lookup_tables words =
  (PyDict.set String.eqb
     (map swap_item (PyList.enumerate (sorted_vocab_of words)))
     "<PAD>" (List.length (sorted_vocab_of words)),
   PyList.enumerate (sorted_vocab_of words)
     ++ [(List.length (sorted_vocab_of words), "<PAD>")]).
Proof.
  unfold create_lookup_tables. fold (sorted_vocab_of words).
  set (sv := sorted_vocab_of words).
  assert (Hi : PyDict.of_items Nat.eqb (PyList.enumerate sv)
               = PyList.enumerate sv).
  { apply (of_items_nodup Nat.eqb nat_eqb_eq).
    rewrite enumerate_fst. apply seq_NoDup. }
  rewrite Hi. unfold PyDict.items.
  assert (Hv : PyDict.of_items String.eqb
                 (map (fun iw => (snd iw, fst iw)) (PyList.enumerate sv))
               = map swap_item (PyList.enumerate sv)).
  { apply (of_items_nodup String.eqb string_eqb_eq).
    change (NoDup (PyDict.keys (map swap_item (PyList.enumerate sv)))).
    rewrite swapped_keys. apply sorted_vocab_NoDup. }
  rewrite Hv. unfold PyDict.len.
  rewrite length_map, enumerate_length.
  f_equal. apply (set_fresh Nat.eqb nat_eqb_eq).
  unfold PyDict.keys. rewrite enumerate_fst, in_seq. lia.
Qed.

(** Lookups in the two tables. *)
Lemma get_int_to_vocab words i :
  PyDict.get Nat.eqb (snd (create_lookup_tables words)) i =
  if Nat.eqb (List.length (sorted_vocab_of words)) i then Some "<PAD>"
  else nth_error (sorted_vocab_of words) i.
Proof.
  rewrite create_lookup_tables_eq. cbn [snd].
  set (sv := sorted_vocab_of words).
  rewrite <- (set_fresh Nat.eqb nat_eqb_eq)
    by (unfold PyDict.keys; rewrite enumerate_fst, in_seq; lia).
  rewrite (get_set Nat.eqb nat_eqb_eq).
  destruct (Nat.eqb (List.length sv) i); [reflexivity|].
  destruct (nth_error sv i) as [w|] eqn:E.
  - apply (get_Some_In Nat.eqb nat_eqb_eq).
    + unfold PyDict.keys. rewrite enumerate_fst. apply seq_NoDup.
    + now apply In_enumerate.
  - destruct (PyDict.get Nat.eqb (PyList.enumerate sv) i) as [w|] eqn:G;
      [|reflexivity].
    apply (get_Some_In Nat.eqb nat_eqb_eq) in G.
    + apply In_enumerate in G. congruence.
    + unfold PyDict.keys. rewrite enumerate_fst. apply seq_NoDup.
Qed.

Lemma get_vocab_to_int words w i :
  PyDict.get String.eqb (fst (create_lookup_tables words)) w = Some i <->
  (w = "<PAD>" /\ i = List.length (sorted_vocab_of words))
  \/ (w <> "<PAD>" /\ nth_error (sorted_vocab_of words) i = Some w).
Proof.
  rewrite create_lookup_tables_eq. cbn [fst].
  set (sv := sorted_vocab_of words).
  rewrite (get_set String.eqb string_eqb_eq).
  destruct (String.eqb_spec "<PAD>" w) as [<-|Hne].
  - split.
    + intros [= <-]. now left.
    + intros [[_ ->]|[H _]]; [reflexivity | congruence].
  - rewrite (get_Some_In String.eqb string_eqb_eq)
      by (rewrite swapped_keys; apply sorted_vocab_NoDup).
    rewrite In_swapped. split.
    + intros H. right. split; [congruence | exact H].
    + intros [[-> _]|[_ H]]; [congruence | exact H].
Qed.

Lemma nth_error_lt_length {A} (l : list A) i x :
  nth_error l i = Some x -> i < List.length l.
Proof. intros H. apply nth_error_Some. congruence. Qed.

Lemma swapped_keys_NoDup words :
  NoDup (PyDict.keys (map swap_item (PyList.enumerate (sorted_vocab_of words)))).
Proof. rewrite swapped_keys. apply sorted_vocab_NoDup. Qed.

(** C8: on the empty token sequence the builder returns (it has no failing
    step) the vocabulary whose only entry is the padding symbol, at index 0
    in both directions. *)
Theorem create_lookup_tables_empty :
  create_lookup_tables [] = ([("<PAD>", 0)], [(0, "<PAD>")]).
Proof. reflexivity. Qed.

(** Every entry of [word_to_index] is inverted by [index_to_word], for any
    input. *)
Lemma index_to_word_inverts words w i :
  In (w, i) (PyDict.items (fst (create_lookup_tables words))) ->
  PyDict.get Nat.eqb (snd (create_lookup_tables words)) i = Some w.
Proof.
  intros H. rewrite get_int_to_vocab.
  rewrite create_lookup_tables_eq in H. cbn [fst PyDict.items] in H.
  apply (In_set String.eqb string_eqb_eq) in H;
    [|apply swapped_keys_NoDup].
  destruct H as [[-> ->]|[Hne H]].
  - now rewrite Nat.eqb_refl.
  - apply In_swapped in H.
    pose proof (nth_error_lt_length _ _ _ H) as Hlt.
    destruct (Nat.eqb_spec (List.length (sorted_vocab_of words)) i); [lia|].
    exact H.
Qed.

(** Every entry of [index_to_word] is inverted by [word_to_index] when the
    input does not hold the padding symbol. *)
Lemma word_to_index_inverts words i w :
  ~ In "<PAD>" words ->
  In (i, w) (PyDict.items (snd (create_lookup_tables words))) ->
  PyDict.get String.eqb (fst (create_lookup_tables words)) w = Some i.
Proof.
  intros Hpad H. apply get_vocab_to_int.
  rewrite create_lookup_tables_eq in H. cbn [snd PyDict.items] in H.
  apply in_app_or in H as [H|[[= <- <-]|[]]].
  - right. apply In_enumerate in H. split; [|exact H].
    intros ->. apply Hpad. apply sorted_vocab_In.
    eapply nth_error_In. exact H.
  - now left.
Qed.

(** C4 (as amended): for every token sequence, [index_to_word] maps the
    index of each entry of [word_to_index] back to its word; and for every
    token sequence that does not contain the padding symbol, the two
    tables are exact mutual inverses. *)
Theorem lookup_tables_mutual_inverses (words : list string) :
  (forall w i,
     In (w, i) (PyDict.items (fst (create_lookup_tables words))) ->
     PyDict.get Nat.eqb (snd (create_lookup_tables words)) i = Some w)
  /\ (~ In "<PAD>" words -> mutual_inverses (create_lookup_tables words)).
Proof.
  split.
  - apply index_to_word_inverts.
  - intros Hpad. split.
    + apply index_to_word_inverts.
    + intros i w. now apply word_to_index_inverts.
Qed.

Lemma lookup_tables_mutual_inverses_witness :
  ~ In "<PAD>" ["a"; "cat"; "a"]
  /\ mutual_inverses (create_lookup_tables ["a"; "cat"; "a"]).
Proof.
  assert (H : ~ In "<PAD>" ["a"; "cat"; "a"]).
  { simpl. intros [H|[H|[H|[]]]]; discriminate H. }
  split; [exact H|].
  exact (proj2 (lookup_tables_mutual_inverses ["a"; "cat"; "a"]) H).
Defined.

(** C4 fails as stated: when the input holds the padding symbol, the entry
    of [index_to_word] at the symbol's frequency rank is not inverted. *)
Lemma pad_collision_not_mutual_inverses :
  create_lookup_tables ["<PAD>"]
  = ([("<PAD>", 1)], [(0, "<PAD>"); (1, "<PAD>")])
  /\ ~ mutual_inverses (create_lookup_tables ["<PAD>"]).
Proof.
  split; [reflexivity|].
  intros [_ H]. specialize (H 0 "<PAD>").
  assert (Hin : In (0, "<PAD>")
                  (PyDict.items (snd (create_lookup_tables ["<PAD>"])))).
  { vm_compute. now left. }
  apply H in Hin. vm_compute in Hin. discriminate Hin.
Qed.

(** C5 (as amended): for every token sequence that does not contain the
    padding symbol, with [N] distinct tokens, the indices are exactly
    [0..N] without duplicates or gaps on both sides, and the padding symbol
    is at index [N] and at no other. *)
Theorem lookup_tables_dense (words : list string) :
  ~ In "<PAD>" words -> dense_with_pad_last words.
Proof.
  intros Hpad. unfold dense_with_pad_last.
  rewrite <- (sorted_vocab_length words).
  assert (Hsv : ~ In "<PAD>" (sorted_vocab_of words))
    by (now rewrite sorted_vocab_In).
  assert (Hvals : PyDict.values (fst (create_lookup_tables words))
                  = seq 0 (S (List.length (sorted_vocab_of words)))).
  { rewrite create_lookup_tables_eq. cbn [fst].
    rewrite (set_fresh String.eqb string_eqb_eq)
      by (now rewrite swapped_keys).
    unfold PyDict.values. rewrite map_app.
    change (map snd (map swap_item (PyList.enumerate (sorted_vocab_of words))))
      with (PyDict.values
              (map swap_item (PyList.enumerate (sorted_vocab_of words)))).
    rewrite swapped_values, seq_S. reflexivity. }
  assert (Hkeys : PyDict.keys (snd (create_lookup_tables words))
                  = seq 0 (S (List.length (sorted_vocab_of words)))).
  { rewrite create_lookup_tables_eq. cbn [snd].
    unfold PyDict.keys. rewrite map_app, enumerate_fst, seq_S. reflexivity. }
  repeat split.
  - rewrite Hvals, in_seq. lia.
  - rewrite Hvals, in_seq. lia.
  - rewrite Hvals. apply seq_NoDup.
  - rewrite Hkeys, in_seq. lia.
  - rewrite Hkeys, in_seq. lia.
  - apply get_vocab_to_int. now left.
  - rewrite get_int_to_vocab.
    destruct (Nat.eqb_spec (List.length (sorted_vocab_of words)) i);
      [congruence|].
    intros H. exfalso. apply Hsv. eapply nth_error_In. exact H.
  - intros ->. rewrite get_int_to_vocab. now rewrite Nat.eqb_refl.
Qed.

Lemma lookup_tables_dense_witness :
  ~ In "<PAD>" ["<s>"; "a"; "cat"; "</s>"; "<s>"; "a"; "dog"; "</s>"]
  /\ dense_with_pad_last
       ["<s>"; "a"; "cat"; "</s>"; "<s>"; "a"; "dog"; "</s>"].
Proof.
  assert (H : ~ In "<PAD>"
                ["<s>"; "a"; "cat"; "</s>"; "<s>"; "a"; "dog"; "</s>"]).
  { simpl. intros H. repeat (destruct H as [H|H]; [discriminate H|]). exact H. }
  split; [exact H|].
  exact (lookup_tables_dense _ H).
Defined.

(** C5 fails as stated: on the one-token sequence holding the padding
    symbol ([N = 1]), no word receives index 0. *)
Lemma pad_collision_not_dense :
  create_lookup_tables ["<PAD>"]
  = ([("<PAD>", 1)], [(0, "<PAD>"); (1, "<PAD>")])
  /\ distinct_count ["<PAD>"] = 1
  /\ ~ dense_with_pad_last ["<PAD>"].
Proof.
  split; [reflexivity|]. split; [reflexivity|].
  intros (H & _).
  assert (Hin : In 0 (PyDict.values (fst (create_lookup_tables ["<PAD>"])))).
  { apply H. apply Nat.le_0_l. }
  vm_compute in Hin. destruct Hin as [Hin|[]]. discriminate Hin.
Qed.

(** C7 (as amended): for every token sequence and any two words [w1], [w2]
    occurring in it, with [w1] strictly more frequent than [w2] and [w1]
    not the padding symbol, the index of [w1] is strictly lower than the
    index of [w2]. *)
Theorem more_frequent_lower_index (words : list string) (w1 w2 : string) :
  In w2 words ->
  count_occ string_dec words w2 < count_occ string_dec words w1 ->
  w1 <> "<PAD>" ->
  frequency_ordered words w1 w2.
Proof.
  intros Hin2 Hcount Hpad.
  assert (Hin1 : In w1 words) by (apply (count_occ_In string_dec); lia).
  apply sorted_vocab_In, In_nth_error in Hin1 as [i1 H1].
  pose proof (nth_error_lt_length _ _ _ H1) as Hlt1.
  destruct (string_dec w2 "<PAD>") as [->|Hne2].
  - exists i1, (List.length (sorted_vocab_of words)).
    split; [apply get_vocab_to_int; now right|].
    split; [apply get_vocab_to_int; now left | exact Hlt1].
  - apply sorted_vocab_In, In_nth_error in Hin2 as [i2 H2].
    exists i1, i2.
    split; [apply get_vocab_to_int; now right|].
    split; [apply get_vocab_to_int; now right|].
    destruct (Nat.lt_trichotomy i1 i2) as [Hlt|[Heq|Hgt]]; [exact Hlt | |].
    + subst i2. rewrite H1 in H2. injection H2 as ->. lia.
    + pose proof (sorted_vocab_order words i2 i1 w2 w1 Hgt H2 H1). lia.
Qed.

Lemma more_frequent_lower_index_witness :
  In "cat" ["a"; "cat"; "a"; "a"; "cat"; "a"; "a"]
  /\ count_occ string_dec ["a"; "cat"; "a"; "a"; "cat"; "a"; "a"] "cat"
     < count_occ string_dec ["a"; "cat"; "a"; "a"; "cat"; "a"; "a"] "a"
  /\ "a" <> "<PAD>"
  /\ frequency_ordered ["a"; "cat"; "a"; "a"; "cat"; "a"; "a"] "a" "cat".
Proof.
  assert (H1 : In "cat" ["a"; "cat"; "a"; "a"; "cat"; "a"; "a"])
    by (simpl; tauto).
  assert (H2 : count_occ string_dec
                 ["a"; "cat"; "a"; "a"; "cat"; "a"; "a"] "cat"
               < count_occ string_dec
                   ["a"; "cat"; "a"; "a"; "cat"; "a"; "a"] "a")
    by (vm_compute; lia).
  assert (H3 : "a" <> "<PAD>") by discriminate.
  split; [exact H1|]. split; [exact H2|]. split; [exact H3|].
  exact (more_frequent_lower_index _ "a" "cat" H1 H2 H3).
Defined.

(** C7 fails as stated: a padding symbol in the input is moved to the
    highest index, however frequent it is. *)
Lemma pad_collision_not_frequency_ordered :
  fst (create_lookup_tables ["<PAD>"; "<PAD>"; "a"])
  = [("<PAD>", 2); ("a", 1)]
  /\ In "a" ["<PAD>"; "<PAD>"; "a"]
  /\ count_occ string_dec ["<PAD>"; "<PAD>"; "a"] "a"
     < count_occ string_dec ["<PAD>"; "<PAD>"; "a"] "<PAD>"
  /\ ~ frequency_ordered ["<PAD>"; "<PAD>"; "a"] "<PAD>" "a".
Proof.
  split; [reflexivity|].
  split; [simpl; tauto|].
  split; [vm_compute; lia|].
  intros (i1 & i2 & G1 & G2 & Hlt).
  vm_compute in G1, G2.
  injection G1 as <-. injection G2 as <-. lia.
Qed.

(** ** The caption corpus loader *)

(** C6: on the document [{"img1": ["A cat.", "A DOG!"]}] the loader returns
    the captions replaced in place by their normalized forms, in order
    (lowercased, the trailing period dropped, the exclamation mark turned
    into its tag), together with the tokens of the normalized captions in
    processing order. *)
Theorem load_image_captions_example :
  load_image_captions_from_json [("img1", ["A cat."; "A DOG!"])] =
  Ok ([("img1", ["<s> a cat </s>"; "<s> a dog <EXCLAMATION_MARK> </s>"])],
      ["<s>"; "a"; "cat"; "</s>";
       "<s>"; "a"; "dog"; "<EXCLAMATION_MARK>"; "</s>"]).
Proof. vm_compute. reflexivity. Qed.

Lemma last_char_None s : PyStr.last_char s = None <-> s = EmptyString.
Proof.
  induction s as [|c s IH]; [tauto|].
  split; [|discriminate]. simpl. destruct s; [discriminate|].
  intros H. apply IH in H. discriminate H.
Qed.

Lemma process_caption_stripped_empty caption :
  quote_stripped caption = EmptyString ->
  process_caption caption = Raise IndexError.
Proof.
  intros H. unfold process_caption. fold (quote_stripped caption).
  now rewrite H.
Qed.

Lemma process_caption_raises caption e :
  process_caption caption = Raise e -> e = IndexError.
Proof.
  unfold process_caption.
  destruct (PyStr.last_char _); [discriminate | congruence].
Qed.

(** The element read by the loop is found by [index], at its position or
    before. *)
Lemma index_found l : forall i x,
  nth_error l i = Some x -> exists j, PyList.index x l = Some j /\ j <= i.
Proof.
  induction l as [|y l IH]; intros i x H; [destruct i; discriminate H|].
  simpl. destruct (String.eqb_spec y x) as [->|Hne].
  - exists 0. split; [reflexivity | lia].
  - destruct i as [|i]; [simpl in H; congruence|].
    destruct (IH i x H) as (j & Hj & Hle).
    exists (S j). rewrite Hj. split; [reflexivity | lia].
Qed.

Lemma set_item_length {A} (l : list A) : forall i v,
  List.length (PyList.set_item l i v) = List.length l.
Proof.
  induction l as [|y l IH]; intros [|i] v; simpl; auto.
Qed.

Lemma set_item_other {A} (l : list A) : forall j k v,
  j <> k -> nth_error (PyList.set_item l j v) k = nth_error l k.
Proof.
  induction l as [|y l IH]; intros [|j] [|k] v H; simpl; auto; try lia.
Qed.

(** The iteration count given to the inner loop is enough: with any
    larger one the loop ends the same way, on the position past the end. *)
Lemma captions_loop_enough n : forall m i captions word_list,
  List.length captions - i <= n -> List.length captions - i <= m ->
  captions_loop n i captions word_list = captions_loop m i captions word_list.
Proof.
  induction n as [|n IH]; intros m i captions word_list Hn Hm.
  - destruct m as [|m]; [reflexivity|]. simpl.
    destruct (nth_error captions i) eqn:Hi; [|reflexivity].
    pose proof (nth_error_lt_length _ _ _ Hi). lia.
  - destruct m as [|m]; simpl.
    + destruct (nth_error captions i) eqn:Hi; [|reflexivity].
      pose proof (nth_error_lt_length _ _ _ Hi). lia.
    + destruct (nth_error captions i) as [caption|]; [|reflexivity].
      destruct (process_caption caption) as [cp|e]; [|reflexivity].
      destruct (PyList.index caption captions) as [j|]; [|reflexivity].
      apply IH; rewrite set_item_length; lia.
Qed.

(** The only exception of the inner loop is the IndexError. *)
Lemma captions_loop_raises n : forall i captions word_list e,
  captions_loop n i captions word_list = Raise e -> e = IndexError.
Proof.
  induction n as [|n IH]; intros i captions word_list e; simpl;
    [discriminate|].
  destruct (nth_error captions i) as [caption|] eqn:Hi; [|discriminate].
  destruct (process_caption caption) as [cp|e'] eqn:Hp.
  - destruct (index_found _ _ _ Hi) as (j & -> & _). apply IH.
  - intros [= <-]. exact (process_caption_raises _ _ Hp).
Qed.

(** A caption that is empty once stripped of quotes, at or after the
    position of the loop, stops the loop with the IndexError. *)
Lemma captions_loop_stripped_empty n : forall i captions word_list k caption,
  n = List.length captions - i ->
  i <= k ->
  nth_error captions k = Some caption ->
  quote_stripped caption = EmptyString ->
  captions_loop n i captions word_list = Raise IndexError.
Proof.
  induction n as [|n IH]; intros i captions word_list k caption Hn Hik Hk He.
  - pose proof (nth_error_lt_length _ _ _ Hk). lia.
  - simpl.
    destruct (nth_error captions i) as [c|] eqn:Hi.
    2:{ apply nth_error_None in Hi. lia. }
    destruct (process_caption c) as [cp|e] eqn:Hp.
    2:{ now rewrite (process_caption_raises _ _ Hp). }
    destruct (index_found _ _ _ Hi) as (j & -> & Hj).
    assert (Hne : i <> k).
    { intros ->. rewrite Hk in Hi. injection Hi as ->.
      rewrite (process_caption_stripped_empty _ He) in Hp. discriminate Hp. }
    apply (IH (S i) _ _ k caption).
    + rewrite set_item_length. lia.
    + lia.
    + rewrite set_item_other by lia. exact Hk.
    + exact He.
Qed.

Lemma values_loop_stripped_empty d : forall word_list image captions caption,
  In (image, captions) d ->
  In caption captions ->
  quote_stripped caption = EmptyString ->
  values_loop d word_list = Raise IndexError.
Proof.
  induction d as [|[image0 captions0] d IH];
    intros word_list image captions caption Hd Hc He; [destruct Hd|].
  simpl.
  destruct (captions_loop (List.length captions0) 0 captions0 word_list)
    as [[captions' word_list']|e] eqn:Hloop.
  - destruct Hd as [[= -> ->]|Hd].
    + apply In_nth_error in Hc as [k Hk].
      rewrite (captions_loop_stripped_empty _ 0 captions word_list k caption)
        in Hloop; [discriminate Hloop | lia | lia | exact Hk | exact He].
    + now rewrite (IH word_list' image captions caption Hd Hc He).
  - now rewrite (captions_loop_raises _ _ _ _ _ Hloop).
Qed.

(** C10: if some image's list holds a caption that is empty, or that is
    empty once lowercased and stripped of double and single quotes, the
    loader raises the IndexError of reading the last character of an empty
    string. *)
Theorem load_image_captions_empty_caption_raises
  (captions_dict : PyDict.dict (K:=string) (V:=list string))
  (image : string) (captions : list string) (caption : string) :
  In (image, captions) (PyDict.items captions_dict) ->
  In caption captions ->
  quote_stripped caption = EmptyString ->
  load_image_captions_from_json captions_dict = Raise IndexError.
Proof.
  intros Hd Hc He. unfold load_image_captions_from_json.
  exact (values_loop_stripped_empty _ _ image captions caption Hd Hc He).
Qed.

Lemma load_image_captions_empty_caption_raises_witness :
  In ("img1", ["A cat."; "''"]) (PyDict.items [("img1", ["A cat."; "''"])])
  /\ In "''" ["A cat."; "''"]
  /\ quote_stripped "''" = EmptyString
  /\ load_image_captions_from_json [("img1", ["A cat."; "''"])]
     = Raise IndexError.
Proof.
  assert (H1 : In ("img1", ["A cat."; "''"])
                 (PyDict.items [("img1", ["A cat."; "''"])]))
    by (simpl; tauto).
  assert (H2 : In "''" ["A cat."; "''"]) by (simpl; tauto).
  assert (H3 : quote_stripped "''" = EmptyString) by reflexivity.
  split; [exact H1|]. split; [exact H2|]. split; [exact H3|].
  exact (load_image_captions_empty_caption_raises
           [("img1", ["A cat."; "''"])] "img1" ["A cat."; "''"] "''"
           H1 H2 H3).
Defined.


(** ** Tensor shapes *)

Lemma flat_map_length_const {A B} (f : A -> list B) k l :
  (forall x, In x l -> List.length (f x) = k) ->
  List.length (flat_map f l) = List.length l * k.
Proof.
  induction l as [|x l IH]; intros H; simpl; [reflexivity|].
  rewrite length_app, IH, H; [reflexivity | now left |].
  intros y Hy. apply H. now right.
Qed.

(** Transposing a well-formed [B x L] tensor gives an [L x B] tensor with
    the same number of elements. *)
Lemma permute_1_0_shape {A} (t : tensor A) B L :
  shape t = [B; L] -> List.length (data t) = B * L ->
  exists t', Torch.permute_1_0 t = Ok t'
             /\ shape t' = [L; B] /\ List.length (data t') = L * B.
Proof.
  intros Hs Hd. unfold Torch.permute_1_0. rewrite Hs.
  eexists. split; [reflexivity|]. split; [reflexivity|].
  cbn [data].
  rewrite (flat_map_length_const _ B), length_seq; [reflexivity|].
  intros j Hj. apply in_seq in Hj.
  rewrite (flat_map_length_const _ 1), length_seq; [lia|].
  intros i Hi. apply in_seq in Hi.
  destruct (nth_error (data t) (i * L + j)) eqn:E; [reflexivity|].
  apply nth_error_None in E. nia.
Qed.

(** What the loop gives the loss and the model for [B] target sequences
    of [L] steps: all [B * L] indices to the loss, [L - 1] steps to the
    model. *)
Lemma loop_targets_shape (targets : tensor Z) B L :
  shape targets = [B; L] -> List.length (data targets) = B * L ->
  exists t p,
    loss_target_of targets = Ok t
    /\ shape t = [B * L]
    /\ List.length (data t) = B * L
    /\ model_captions_of targets = Ok p
    /\ shape p = [L - 1; B].
Proof.
  intros Hs Hd.
  destruct (permute_1_0_shape targets B L Hs Hd) as (t' & Hp & Hs' & Hd').
  unfold loss_target_of, model_captions_of. rewrite Hp.
  unfold Torch.reshape_flat, Torch.slice_to_minus1. rewrite Hs'.
  do 2 eexists. split; [reflexivity|].
  split; [cbn; f_equal; lia|].
  split; [cbn [data]; lia|].
  split; reflexivity.
Qed.

(** ** The training and inference loops *)

Section LoopFacts.
Context {W Pix Score LossT Item : Type}.

Local Abbreviation St := (state (W:=W) (Pix:=Pix) (Score:=Score)).

Lemma bind_ok {A B} (m : M A) (k : A -> M B) (s s' : St) b :
  bind m k s = (s', Ok b) ->
  exists s1 a, m s = (s1, Ok a) /\ k a s1 = (s', Ok b).
Proof.
  unfold bind. destruct (m s) as [s1 [a|e]]; [|discriminate].
  intros H. now exists s1, a.
Qed.

Lemma call_ok {A} e (f : W -> result (W * A)) (s s' : St) a :
  call e f s = (s', Ok a) -> trace s' = trace s ++ [e].
Proof.
  unfold call. destruct (f (world s)) as [[w' a']|x]; [|discriminate].
  intros [= <- _]. reflexivity.
Qed.

Lemma lift_ok {A} (r : result A) (s s' : St) a :
  lift r s = (s', Ok a) -> s' = s /\ r = Ok a.
Proof. unfold lift. intros [= -> ->]. now split. Qed.

(** A completed loop leaves the traces of its iterations, in order. *)
Lemma for_each_trace {X} (P : X -> list (event Pix Score) -> Prop)
  (body : X -> M unit) :
  (forall x (s s' : St), body x s = (s', Ok tt) ->
     exists tr, trace s' = trace s ++ tr /\ P x tr) ->
  forall l (s s' : St), for_each l body s = (s', Ok tt) ->
  exists trs, trace s' = trace s ++ List.concat trs /\ Forall2 P l trs.
Proof.
  intros Hbody. induction l as [|x l IH]; intros s s' H; simpl in H.
  - injection H as <-. exists []. simpl. rewrite app_nil_r. now split.
  - apply bind_ok in H as (s1 & [] & H1 & H).
    apply Hbody in H1 as (tr & Htr & HP).
    apply IH in H as (trs & Htrs & HF).
    exists (tr :: trs). split; [|now constructor].
    simpl. rewrite Htrs, Htr, app_assoc. reflexivity.
Qed.

Variables (model : Module_ (W:=W) (Pix:=Pix) (Score:=Score) (Item:=Item))
          (loss : Loss (W:=W) (Score:=Score) (LossT:=LossT))
          (optimizer : Optimizer (W:=W))
          (writer : SummaryWriter (W:=W) (Score:=Score))
          (epoch : Z) (device : string).

(** The calls made by a completed run of the training loop. *)
Lemma train_step_trace train_data (s s' : St) :
  train_step model train_data loss optimizer writer epoch device s
    = (s', Ok tt) ->
  exists trs,
    trace s' = trace s ++ [EvModelTo device; EvModelTrain] ++ List.concat trs
    /\ Forall2 (batch_trace epoch) train_data trs.
Proof.
  unfold train_step. intros H.
  apply bind_ok in H as (s1 & [] & H1 & H). apply call_ok in H1.
  apply bind_ok in H as (s2 & [] & H2 & H). apply call_ok in H2.
  apply bind_ok in H as (s3 & [] & H3 & H).
  injection H as <-.
  apply (for_each_trace (batch_trace epoch)) in H3.
  - destruct H3 as (trs & Htrs & HF). exists trs. split; [|exact HF].
    rewrite Htrs, H2, H1, <- !app_assoc. reflexivity.
  - clear. intros [inputs targets] s s' H.
    unfold Torch.to, Torch.float, Torch.long in H.
    apply bind_ok in H as (s1 & t & H1 & H).
    apply lift_ok in H1 as [-> Hperm].
    apply bind_ok in H as (s2 & [] & H2 & H). apply call_ok in H2.
    apply bind_ok in H as (s3 & prefix & H3 & H).
    apply lift_ok in H3 as [-> Hslice].
    apply bind_ok in H as (s4 & outputs & H4 & H). apply call_ok in H4.
    apply bind_ok in H as (s5 & vocab & H5 & H).
    apply lift_ok in H5 as [-> _].
    apply bind_ok in H as (s6 & outr & H6 & H).
    apply lift_ok in H6 as [-> _].
    apply bind_ok in H as (s7 & lv & H7 & H). apply call_ok in H7.
    apply bind_ok in H as (s8 & [] & H8 & H). apply call_ok in H8.
    apply bind_ok in H as (s9 & [] & H9 & H). apply call_ok in H9.
    apply call_ok in H.
    eexists. split.
    + rewrite H, H9, H8, H7, H4, H2, <- !app_assoc. reflexivity.
    + exists t, prefix, outr, (loss_item loss lv).
      split; [exact Hperm|]. split; [exact Hslice|]. reflexivity.
Qed.

(** C9: a completed run of the training loop over a loader of exactly
    one batch calls the optimizer's step exactly once and writes exactly
    one scalar to the metric sink, named "Loss/train" and keyed by the
    epoch. *)
Theorem train_step_single_batch batch (s s' : St) :
  train_step model [batch] loss optimizer writer epoch device s
    = (s', Ok tt) ->
  exists tr value,
    trace s' = trace s ++ tr
    /\ optimizer_steps tr = 1
    /\ scalars tr = [("Loss/train", value, epoch)].
Proof.
  intros H. apply train_step_trace in H as (trs & Htr & HF).
  inversion HF as [|? tr0 ? trs0 Hb HF0]; subst.
  inversion HF0; subst.
  destruct Hb as (t & prefix & outr & value & _ & _ & ->).
  eexists. exists value. split; [exact Htr|].
  split; reflexivity.
Qed.

Lemma loss_calls_batches train_data trs :
  Forall2 (batch_trace (Pix:=Pix) (Score:=Score) epoch) train_data trs ->
  map (fun c => Ok (snd c)) (loss_calls (List.concat trs))
  = map (fun b => loss_target_of (snd b)) train_data.
Proof.
  induction 1 as [|b tr l trs' Hb HF IH]; [reflexivity|].
  destruct Hb as (t & prefix & outr & value & Hperm & _ & ->).
  cbn [List.concat map]. unfold loss_calls in *.
  rewrite flat_map_app, map_app, IH.
  unfold loss_target_of. rewrite Hperm. reflexivity.
Qed.

Lemma forward_calls_batches train_data trs :
  Forall2 (batch_trace (Pix:=Pix) (Score:=Score) epoch) train_data trs ->
  map (fun c => Ok (snd c)) (forward_calls (List.concat trs))
  = map (fun b => model_captions_of (snd b)) train_data.
Proof.
  induction 1 as [|b tr l trs' Hb HF IH]; [reflexivity|].
  destruct Hb as (t & prefix & outr & value & Hperm & Hslice & ->).
  cbn [List.concat map]. unfold forward_calls in *.
  rewrite flat_map_app, map_app, IH.
  unfold model_captions_of. rewrite Hperm, Hslice. reflexivity.
Qed.

(** C1 (as amended): in a completed run of the training loop, for every
    batch, the model is called on the sequence-major targets without
    their last step, and the loss is called on the whole sequence-major
    targets, flattened: for [B] target sequences of [L] steps the loss
    receives [B * L] category indices (no step is dropped), the model
    [L - 1] steps. *)
Theorem train_step_loss_target_whole train_data (s s' : St) :
  train_step model train_data loss optimizer writer epoch device s
    = (s', Ok tt) ->
  exists tr,
    trace s' = trace s ++ tr
    /\ map (fun c => Ok (snd c)) (forward_calls tr)
       = map (fun b => model_captions_of (snd b)) train_data
    /\ map (fun c => Ok (snd c)) (loss_calls tr)
       = map (fun b => loss_target_of (snd b)) train_data
    /\ (forall inputs targets B L,
          In (inputs, targets) train_data ->
          shape targets = [B; L] ->
          List.length (data targets) = B * L ->
          exists t p,
            loss_target_of targets = Ok t
            /\ shape t = [B * L]
            /\ List.length (data t) = B * L
            /\ model_captions_of targets = Ok p
            /\ shape p = [L - 1; B]).
Proof.
  intros H. apply train_step_trace in H as (trs & Htr & HF).
  eexists. split; [exact Htr|].
  split; [|split].
  - unfold forward_calls. rewrite flat_map_app. cbn [flat_map app].
    now apply forward_calls_batches.
  - unfold loss_calls. rewrite flat_map_app. cbn [flat_map app].
    now apply loss_calls_batches.
  - intros inputs targets B L _ Hs Hd. now apply loop_targets_shape.
Qed.

(** The inference loop has no [return]: whenever it completes, it hands
    back [None]. *)
Lemma t_step_returns_none data_ word2_idx idx2_word (s s' : St) r :
  t_step model data_ device word2_idx idx2_word s = (s', Ok r) ->
  r = PyNone.
Proof.
  unfold t_step. intros H.
  apply bind_ok in H as (s1 & [] & _ & H).
  apply bind_ok in H as (s2 & [] & _ & H).
  apply bind_ok in H as (s3 & predictions & _ & H).
  now injection H as _ <-.
Qed.
End LoopFacts.

Lemma train_step_single_batch_witness :
  train_step sample_model [sample_batch] sample_loss sample_optimizer
    sample_writer 3%Z "cpu" sample_state = (sample_trained_state, Ok tt)
  /\ exists tr value,
       trace sample_trained_state = trace sample_state ++ tr
       /\ optimizer_steps tr = 1
       /\ scalars tr = [("Loss/train", value, 3%Z)].
Proof.
  assert (H : train_step sample_model [sample_batch] sample_loss
                sample_optimizer sample_writer 3%Z "cpu" sample_state
              = (sample_trained_state, Ok tt)) by reflexivity.
  split; [exact H|].
  exact (train_step_single_batch sample_model sample_loss sample_optimizer
           sample_writer 3%Z "cpu" sample_batch sample_state
           sample_trained_state H).
Defined.

Lemma train_step_loss_target_whole_witness :
  train_step sample_model [sample_batch] sample_loss sample_optimizer
    sample_writer 3%Z "cpu" sample_state = (sample_trained_state, Ok tt)
  /\ exists tr,
       trace sample_trained_state = trace sample_state ++ tr
       /\ map (fun c => Ok (snd c)) (forward_calls tr)
          = map (fun b => model_captions_of (snd b)) [sample_batch]
       /\ map (fun c => Ok (snd c)) (loss_calls tr)
          = map (fun b => loss_target_of (snd b)) [sample_batch]
       /\ (forall inputs targets B L,
             In (inputs, targets) [sample_batch] ->
             shape targets = [B; L] ->
             List.length (data targets) = B * L ->
             exists t p,
               loss_target_of targets = Ok t
               /\ shape t = [B * L]
               /\ List.length (data t) = B * L
               /\ model_captions_of targets = Ok p
               /\ shape p = [L - 1; B]).
Proof.
  assert (H : train_step sample_model [sample_batch] sample_loss
                sample_optimizer sample_writer 3%Z "cpu" sample_state
              = (sample_trained_state, Ok tt)) by reflexivity.
  split; [exact H|].
  exact (train_step_loss_target_whole sample_model sample_loss
           sample_optimizer sample_writer 3%Z "cpu" [sample_batch]
           sample_state sample_trained_state H).
Defined.

(** C1 fails as stated: on a batch of one target sequence of two steps the
    loss receives both target indices (against two rows of scores), not
    the [1 * (2 - 1)] indices left once the first step is dropped. *)
Lemma train_step_target_not_shifted :
  loss_calls (trace sample_trained_state)
  = [(Tensor [2; 3] [0; 0; 0; 0; 0; 0], Tensor [2] [5%Z; 7%Z])]
  /\ ~ Forall2 shifted_target_counts [sample_batch]
        (loss_calls (trace sample_trained_state)).
Proof.
  split; [reflexivity|].
  intros H. inversion H as [|? ? ? ? Hc _]; subst.
  destruct (Hc 1 2 eq_refl) as [Hn _].
  vm_compute in Hn. discriminate Hn.
Qed.

(** C2: over two batches the inference loop asks the model for the
    captions of the first sample of each batch, once per batch, and then
    ends without returning them: it hands back [None], not the sequence of
    two captions. *)
Theorem t_step_two_batches :
  t_step sample_model [sample_batch; sample_batch] "cpu"
    sample_word2_idx sample_idx2_word sample_state
  = (State tt [EvModelTo "cpu"; EvModelEval;
               EvGeneraCaptions (Tensor [1; 1; 1] [0]);
               EvGeneraCaptions (Tensor [1; 1; 1] [0])],
     Ok PyNone).
Proof. reflexivity. Qed.

(** ** Further properties of the tokenizer *)

Lemma occurs_app c a b : occurs c (a ++ b)%string = occurs c a || occurs c b.
Proof.
  induction a as [|x a IH]; cbn [append occurs]; [reflexivity|].
  now rewrite IH, orb_assoc.
Qed.

(** A replacement brings in no character that neither the text nor the
    new piece holds. *)
Lemma occurs_replace_from_absent c old new s : forall k,
  occurs c s = false -> occurs c new = false ->
  occurs c (PyStr.replace_from old new k s) = false.
Proof.
  induction s as [|x s IH]; intros k Hs Hn; [reflexivity|].
  cbn [occurs] in Hs. apply orb_false_iff in Hs as [Hx Hs].
  destruct k as [|k]; cbn [PyStr.replace_from]; [|now apply IH].
  destruct (PyStr.startswith old (String x s)).
  - rewrite occurs_app, Hn. now apply IH.
  - cbn [occurs]. rewrite Hx. now apply IH.
Qed.

(** Replacing a character removes it, when the new piece does not hold
    it. *)
Lemma occurs_replace_from_char a new s : forall k,
  occurs a new = false ->
  occurs a (PyStr.replace_from (String a EmptyString) new k s) = false.
Proof.
  induction s as [|x s IH]; intros k Hn; [reflexivity|].
  destruct k as [|k]; cbn [PyStr.replace_from]; [|now apply IH].
  cbn [PyStr.startswith]. rewrite andb_true_r.
  destruct (Ascii.eqb a x) eqn:E.
  - rewrite occurs_app, Hn. now apply IH.
  - cbn [occurs]. rewrite E. now apply IH.
Qed.

Lemma replace_from_char_absent a new s :
  occurs a s = false ->
  PyStr.replace_from (String a EmptyString) new 0 s = s.
Proof.
  induction s as [|x s IH]; intros H; [reflexivity|].
  cbn [occurs] in H. apply orb_false_iff in H as [Hx Hs].
  rewrite replace_from_cons0. cbn [PyStr.startswith].
  rewrite Hx. cbn [andb]. now rewrite IH.
Qed.

Lemma starts_hyphen_app a b :
  starts_hyphen a = false -> a <> EmptyString ->
  starts_hyphen (a ++ b)%string = false.
Proof. destruct a; [congruence | intros H _; exact H]. Qed.

Lemma has_double_hyphen_app_clean a b :
  occurs "-" a = false ->
  has_double_hyphen (a ++ b)%string = has_double_hyphen b.
Proof.
  induction a as [|x a IH]; intros H; [reflexivity|].
  cbn [occurs] in H. apply orb_false_iff in H as [Hx Ha].
  cbn [append has_double_hyphen].
  rewrite Ascii.eqb_sym in Hx. rewrite Hx. cbn [andb orb]. now apply IH.
Qed.

Lemma starts_hyphen_tag m rest :
  starts_hyphen (tag_of m ++ rest)%string = false.
Proof. destruct m; reflexivity. Qed.

Lemma tag_no_hyphen m : occurs "-" (tag_of m) = false.
Proof. destruct m; reflexivity. Qed.

(** After the double-hyphen step no two hyphens are left in a row, and the
    result begins with a hyphen only if the text did. *)
Lemma double_hyphen_replaced_le n : forall s,
  String.length s <= n ->
  has_double_hyphen
    (PyStr.replace_from "--" (tag_of Hyphens) 0 s) = false
  /\ (starts_hyphen (PyStr.replace_from "--" (tag_of Hyphens) 0 s) = true ->
      starts_hyphen s = true).
Proof.
  induction n as [|n IH]; intros s Hn.
  - destruct s; [now split | cbn [String.length] in Hn; lia].
  - destruct s as [|c s1]; [now split|].
    cbn [String.length] in Hn.
    rewrite replace_from_cons0. cbn [PyStr.startswith].
    destruct (Ascii.eqb "-" c) eqn:E1.
    + destruct s1 as [|c2 s2].
      * cbn. rewrite Ascii.eqb_sym, E1. split; [reflexivity | auto].
      * destruct (Ascii.eqb "-" c2) eqn:E2.
        -- cbn [andb String.length Nat.sub PyStr.replace_from].
           cbn [String.length] in Hn.
           destruct (IH s2 ltac:(lia)) as [Hd _].
           rewrite has_double_hyphen_app_clean by apply tag_no_hyphen.
           rewrite starts_hyphen_tag. split; [exact Hd | discriminate].
        -- cbn [andb].
           destruct (IH (String c2 s2) ltac:(lia)) as [Hd Hs].
           cbn [has_double_hyphen starts_hyphen].
           rewrite Hd, orb_false_r.
           rewrite (Ascii.eqb_sym c "-"), E1.
           split; [|reflexivity].
           destruct (starts_hyphen
                       (PyStr.replace_from "--" (tag_of Hyphens) 0
                          (String c2 s2))) eqn:Hst; [|reflexivity].
           specialize (Hs eq_refl). cbn [starts_hyphen] in Hs.
           rewrite Ascii.eqb_sym, E2 in Hs. discriminate Hs.
    + cbn [andb]. destruct (IH s1 ltac:(lia)) as [Hd Hs].
      cbn [has_double_hyphen starts_hyphen].
      rewrite (Ascii.eqb_sym c "-"), E1. cbn [andb orb].
      split; [exact Hd | discriminate].
Qed.

Lemma double_hyphen_replaced s :
  has_double_hyphen (PyStr.replace "--" (tag_of Hyphens) s) = false.
Proof. apply (double_hyphen_replaced_le (String.length s) s). lia. Qed.

(** Replacing a character other than the hyphen by a tag puts no two
    hyphens in a row. *)
Lemma double_hyphen_kept a m s :
  Ascii.eqb a "-" = false ->
  has_double_hyphen s = false ->
  has_double_hyphen
    (PyStr.replace_from (String a EmptyString) (tag_of m) 0 s) = false
  /\ (starts_hyphen
        (PyStr.replace_from (String a EmptyString) (tag_of m) 0 s) = true ->
      starts_hyphen s = true).
Proof.
  intros Ha. induction s as [|c s IH]; intros Hd; [now split|].
  cbn [has_double_hyphen] in Hd. apply orb_false_iff in Hd as [Hc Hd].
  destruct (IH Hd) as [IHd IHs].
  rewrite replace_from_cons0. cbn [PyStr.startswith]. rewrite andb_true_r.
  destruct (Ascii.eqb a c) eqn:E.
  - cbn [String.length Nat.sub].
    rewrite has_double_hyphen_app_clean by apply tag_no_hyphen.
    rewrite starts_hyphen_tag. split; [exact IHd | discriminate].
  - cbn [has_double_hyphen starts_hyphen]. rewrite IHd, orb_false_r.
    split; [|auto].
    destruct (Ascii.eqb c "-") eqn:Ec; [|reflexivity]. cbn [andb] in *.
    destruct (starts_hyphen
                (PyStr.replace_from (String a EmptyString) (tag_of m) 0 s))
      eqn:Hst; [|reflexivity].
    rewrite (IHs eq_refl) in Hc. discriminate Hc.
Qed.

Lemma replace_double_hyphen_absent_le n : forall s new,
  String.length s <= n ->
  has_double_hyphen s = false -> PyStr.replace_from "--" new 0 s = s.
Proof.
  induction n as [|n IH]; intros s new Hn Hd.
  - destruct s; [reflexivity | cbn [String.length] in Hn; lia].
  - destruct s as [|c s1]; [reflexivity|].
    cbn [String.length] in Hn.
    cbn [has_double_hyphen] in Hd. apply orb_false_iff in Hd as [Hc Hd].
    rewrite replace_from_cons0. cbn [PyStr.startswith].
    rewrite (IH s1 new) by (lia || exact Hd).
    destruct (Ascii.eqb "-" c) eqn:E1; [|reflexivity].
    rewrite Ascii.eqb_sym, E1 in Hc. cbn [andb] in Hc.
    destruct s1 as [|c2 s2]; [reflexivity|].
    cbn [starts_hyphen] in Hc. rewrite Ascii.eqb_sym in Hc. rewrite Hc.
    reflexivity.
Qed.

Lemma tokenize_char_removed c s :
  occurs c ".,;!?():" || Ascii.eqb c (ascii_of_nat 34) = true ->
  occurs c (tokenize s) = false.
Proof.
  intros H. unfold tokenize, PyStr.replace, dquote. cbv zeta.
  cbn [occurs] in H. rewrite orb_false_r in H.
  repeat (apply orb_true_iff in H as [H|H]);
    apply Ascii.eqb_eq in H; subst c;
    repeat first
      [ apply occurs_replace_from_char; reflexivity
      | apply occurs_replace_from_absent; [|reflexivity] ].
Qed.

Lemma tokenize_no_double_hyphen s : has_double_hyphen (tokenize s) = false.
Proof.
  unfold tokenize. cbv zeta.
  apply (double_hyphen_kept ":" Colon); [reflexivity|].
  apply (double_hyphen_kept "?" QuestionMark); [reflexivity|].
  apply double_hyphen_replaced.
Qed.


Lemma tokenize_nothing_to_replace (s : string) :
  mark_free s = true -> tokenize s = s.
Proof.
  unfold mark_free. intros H.
  repeat (apply andb_true_iff in H as [H ?]).
  repeat match goal with
         | H : negb _ = true |- _ => apply negb_true_iff in H
         end.
  unfold tokenize, PyStr.replace, dquote. cbv zeta.
  rewrite (replace_from_char_absent "." _ s) by assumption.
  rewrite (replace_from_char_absent "," _ s) by assumption.
  rewrite (replace_from_char_absent (ascii_of_nat 34) _ s) by assumption.
  rewrite (replace_from_char_absent ";" _ s) by assumption.
  rewrite (replace_from_char_absent "!" _ s) by assumption.
  rewrite (replace_from_char_absent "?" _ s) by assumption.
  rewrite (replace_from_char_absent "(" _ s) by assumption.
  rewrite (replace_from_char_absent ")" _ s) by assumption.
  rewrite (replace_double_hyphen_absent_le (String.length s) s)
    by (lia || assumption).
  rewrite (replace_from_char_absent "?" _ s) by assumption.
  rewrite (replace_from_char_absent ":" _ s) by assumption.
  reflexivity.
Qed.

(** X2: a text that holds none of the nine one-character marks and no
    double hyphen is left as it is by [tokenize]. *)
Theorem tokenize_mark_free_unchanged (s : string) :
  mark_free s = true -> tokenize s = s.
Proof.
  intros H. rewrite <- (tokenize_nothing_to_replace s H) at 2. reflexivity.
Qed.

Lemma tokenize_mark_free_unchanged_witness :
  mark_free "a well-known dog #7 <jumps>" = true
  /\ tokenize "a well-known dog #7 <jumps>" = "a well-known dog #7 <jumps>".
Proof.
  split; [reflexivity|].
  apply (tokenize_mark_free_unchanged "a well-known dog #7 <jumps>").
  reflexivity.
Defined.

(** X3: tokenizing twice is tokenizing once. *)
Theorem tokenize_idempotent (s : string) : tokenize (tokenize s) = tokenize s.
Proof.
  apply tokenize_nothing_to_replace. unfold mark_free.
  rewrite !tokenize_char_removed by reflexivity.
  now rewrite tokenize_no_double_hyphen.
Qed.

(** X4: the round trip holds for every text without an opening angle
    bracket, whatever other characters it holds (a single hyphen and any
    unrecognized punctuation are left alone both ways). *)
Theorem untokenize_tokenize_without_angle (s : string) :
  occurs "<" s = false -> untokenize (tokenize s) = s.
Proof. apply untokenize_tokenize_no_lt. Qed.

Lemma untokenize_tokenize_without_angle_witness :
  occurs "<" "re-run #3 @ 50% -- it's [ok] & done..." = false
  /\ untokenize (tokenize "re-run #3 @ 50% -- it's [ok] & done...")
     = "re-run #3 @ 50% -- it's [ok] & done...".
Proof.
  split; [reflexivity|].
  apply (untokenize_tokenize_without_angle
           "re-run #3 @ 50% -- it's [ok] & done...").
  reflexivity.
Defined.

Lemma untokenize_syms_chars s : untokenize_syms (chars s) = chars s.
Proof.
  induction s as [|c s IH]; [reflexivity|].
  cbn [chars]. rewrite untokenize_syms_cons, IH. reflexivity.
Qed.

(** X5: a text without an opening angle bracket holds no tag and is left
    as it is by [untokenize]. *)
Theorem untokenize_without_angle_unchanged (s : string) :
  occurs "<" s = false -> untokenize s = s.
Proof.
  intros H. apply no_lt_chars in H.
  rewrite <- (render_chars s) at 1.
  rewrite untokenize_render by exact H.
  now rewrite untokenize_syms_chars, render_chars.
Qed.

Lemma untokenize_without_angle_unchanged_witness :
  occurs "<" "a dog, a cat: done." = false
  /\ untokenize "a dog, a cat: done." = "a dog, a cat: done.".
Proof.
  split; [reflexivity|].
  apply (untokenize_without_angle_unchanged "a dog, a cat: done.").
  reflexivity.
Defined.

(** ** Further properties of the vocabulary builder *)

Section PrecedesFacts.
Context {A : Type}.

Lemma precedes_In (a b : A) l : precedes a b l -> In a l /\ In b l.
Proof.
  induction 1 as [l Hb|x l H [IHa IHb]]; simpl; tauto.
Qed.

Lemma precedes_app_r (a b : A) l l' : precedes a b l -> precedes a b (l ++ l').
Proof.
  induction 1 as [l Hb|x l H IH]; simpl.
  - apply precedes_here. apply in_or_app. now left.
  - now apply precedes_skip.
Qed.

Lemma precedes_snoc (a b : A) l : In a l -> precedes a b (l ++ [b]).
Proof.
  induction l as [|x l IH]; intros H; [destruct H|].
  simpl. destruct H as [->|H].
  - apply precedes_here. apply in_or_app. right. now left.
  - apply precedes_skip. now apply IH.
Qed.

Lemma precedes_nth_error (a b : A) l :
  precedes a b l -> NoDup l ->
  forall i j, nth_error l i = Some a -> nth_error l j = Some b -> i < j.
Proof.
  induction 1 as [l Hb|x l H IH]; intros Hnd i j Hi Hj;
    inversion Hnd as [|? ? Hnot Hnd']; subst.
  - destruct i as [|i].
    + destruct j as [|j]; [|lia].
      injection Hj as ->. contradiction.
    + simpl in Hi. apply nth_error_In in Hi. contradiction.
  - destruct (precedes_In _ _ _ H) as [Ha Hb].
    destruct i as [|i]; [injection Hi as ->; contradiction|].
    destruct j as [|j]; [injection Hj as ->; contradiction|].
    simpl in Hi, Hj. specialize (IH Hnd' i j Hi Hj). lia.
Qed.

Context (key : A -> nat).

Lemma precedes_insert_desc (a b x : A) l :
  precedes a b l -> precedes a b (PyList.insert_desc key x l).
Proof.
  induction 1 as [l Hb|y l H IH]; simpl.
  - destruct (key x <? key a).
    + apply precedes_here.
      apply (Permutation_in _ (Permutation_sym (insert_desc_perm key x l))).
      now right.
    + apply precedes_skip. now apply precedes_here.
  - destruct (key x <? key y).
    + now apply precedes_skip.
    + apply precedes_skip. now apply precedes_skip.
Qed.

Lemma insert_desc_precedes (x b : A) l :
  In b l -> key b <= key x -> precedes x b (PyList.insert_desc key x l).
Proof.
  induction l as [|y l IH]; intros Hb Hk; [destruct Hb|].
  simpl. destruct (key x <? key y) eqn:E.
  - apply Nat.ltb_lt in E. apply precedes_skip. apply IH; [|exact Hk].
    destruct Hb as [->|Hb]; [lia | exact Hb].
  - now apply precedes_here.
Qed.

(** The sort is stable: an element that stands before another one and has
    no smaller key still stands before it once sorted. *)
Lemma sorted_desc_stable (a b : A) l :
  precedes a b l -> key b <= key a ->
  precedes a b (PyList.sorted_desc key l).
Proof.
  induction 1 as [l Hb|x l H IH]; intros Hk; simpl.
  - apply insert_desc_precedes; [|exact Hk].
    apply (Permutation_in _ (Permutation_sym (sorted_desc_perm key l))).
    exact Hb.
  - apply precedes_insert_desc. now apply IH.
Qed.
End PrecedesFacts.

(** The keys of the counter are in order of first appearance. *)
Lemma counter_step_keys d w :
  (In w (PyDict.keys d) /\ PyDict.keys (counter_step d w) = PyDict.keys d)
  \/ (~ In w (PyDict.keys d)
      /\ PyDict.keys (counter_step d w) = PyDict.keys d ++ [w]).
Proof. apply (keys_set_cases String.eqb string_eqb_eq). Qed.

Lemma counter_keys_precedes_kept ws : forall d a b,
  precedes a b (PyDict.keys d) ->
  precedes a b (PyDict.keys (fold_left counter_step ws d)).
Proof.
  induction ws as [|w ws IH]; intros d a b H; [exact H|].
  simpl. apply IH.
  destruct (counter_step_keys d w) as [[_ ->]|[_ ->]]; [exact H|].
  now apply precedes_app_r.
Qed.

Lemma counter_keys_precedes_new ws : forall d a b,
  In a (PyDict.keys d) -> ~ In b (PyDict.keys d) -> In b ws ->
  precedes a b (PyDict.keys (fold_left counter_step ws d)).
Proof.
  induction ws as [|w ws IH]; intros d a b Ha Hb Hin; [destruct Hin|].
  simpl. destruct (string_dec w b) as [->|Hne].
  - apply counter_keys_precedes_kept.
    destruct (counter_step_keys d b) as [[Hc _]|[_ ->]]; [contradiction|].
    now apply precedes_snoc.
  - destruct Hin as [Hin|Hin]; [contradiction|].
    apply IH; [| |exact Hin].
    + destruct (counter_step_keys d w) as [[_ ->]|[_ ->]]; [exact Ha|].
      apply in_or_app. now left.
    + destruct (counter_step_keys d w) as [[_ ->]|[_ ->]]; [exact Hb|].
      rewrite in_app_iff. simpl. intuition congruence.
Qed.

Lemma index_Some_In x l p : PyList.index x l = Some p -> In x l.
Proof.
  revert p. induction l as [|y l IH]; intros p H; [discriminate H|].
  simpl in H. destruct (String.eqb_spec y x) as [->|Hne]; [now left|].
  destruct (PyList.index x l) as [q|]; [|discriminate H].
  right. now apply (IH q).
Qed.

Lemma counter_keys_first_seen ws : forall d a b p1 p2,
  ~ In a (PyDict.keys d) -> ~ In b (PyDict.keys d) ->
  PyList.index a ws = Some p1 -> PyList.index b ws = Some p2 -> p1 < p2 ->
  precedes a b (PyDict.keys (fold_left counter_step ws d)).
Proof.
  induction ws as [|w ws IH]; intros d a b p1 p2 Ha Hb H1 H2 Hlt;
    [discriminate H1|].
  simpl in H1, H2 |- *.
  destruct (String.eqb_spec w b) as [->|Hwb].
  { injection H2 as <-. lia. }
  destruct (PyList.index b ws) as [q2|] eqn:E2; [|discriminate H2].
  injection H2 as <-.
  assert (Hb' : ~ In b (PyDict.keys (counter_step d w))).
  { destruct (counter_step_keys d w) as [[_ ->]|[_ ->]]; [exact Hb|].
    rewrite in_app_iff. simpl. intuition congruence. }
  destruct (String.eqb_spec w a) as [->|Hwa].
  - apply counter_keys_precedes_new; [|exact Hb'|].
    + destruct (counter_step_keys d a) as [[Hc _]|[_ ->]]; [contradiction|].
      apply in_or_app. right. now left.
    + now apply (index_Some_In _ _ q2).
  - destruct (PyList.index a ws) as [q1|] eqn:E1; [|discriminate H1].
    injection H1 as <-.
    apply (IH _ a b q1 q2); [|exact Hb'|exact E1|exact E2|lia].
    destruct (counter_step_keys d w) as [[_ ->]|[_ ->]]; [exact Ha|].
    rewrite in_app_iff. simpl. intuition congruence.
Qed.

Lemma sorted_vocab_stable words a b p1 p2 :
  PyList.index a words = Some p1 -> PyList.index b words = Some p2 ->
  p1 < p2 ->
  count_occ string_dec words b <= count_occ string_dec words a ->
  precedes a b (sorted_vocab_of words).
Proof.
  intros H1 H2 Hlt Hc. unfold sorted_vocab_of.
  apply sorted_desc_stable; [|now rewrite !Counter_count].
  rewrite Counter_fold.
  apply (counter_keys_first_seen words [] a b p1 p2); auto.
Qed.

(** X6: every word of the input is in the vocabulary, with an index of at
    most [N], and looking that index up gives the word back; this holds
    for any input, padding symbol included. *)
Theorem lookup_round_trip_input_words (words : list string) (w : string) :
  In w words ->
  exists i,
    PyDict.get String.eqb (fst (create_lookup_tables words)) w = Some i
    /\ i <= distinct_count words
    /\ PyDict.get Nat.eqb (snd (create_lookup_tables words)) i = Some w.
Proof.
  intros Hin. rewrite <- sorted_vocab_length.
  destruct (string_dec w "<PAD>") as [->|Hne].
  - exists (List.length (sorted_vocab_of words)).
    split; [apply get_vocab_to_int; now left|]. split; [lia|].
    rewrite get_int_to_vocab. now rewrite Nat.eqb_refl.
  - apply sorted_vocab_In, In_nth_error in Hin as [i Hi].
    pose proof (nth_error_lt_length _ _ _ Hi) as Hlt.
    exists i. split; [apply get_vocab_to_int; now right|]. split; [lia|].
    rewrite get_int_to_vocab.
    destruct (Nat.eqb_spec (List.length (sorted_vocab_of words)) i); [lia|].
    exact Hi.
Qed.

Lemma lookup_round_trip_input_words_witness :
  In "<PAD>" ["a"; "<PAD>"; "a"]
  /\ exists i,
       PyDict.get String.eqb
         (fst (create_lookup_tables ["a"; "<PAD>"; "a"])) "<PAD>" = Some i
       /\ i <= distinct_count ["a"; "<PAD>"; "a"]
       /\ PyDict.get Nat.eqb
            (snd (create_lookup_tables ["a"; "<PAD>"; "a"])) i = Some "<PAD>".
Proof.
  assert (H : In "<PAD>" ["a"; "<PAD>"; "a"]) by (simpl; tauto).
  split; [exact H|].
  exact (lookup_round_trip_input_words ["a"; "<PAD>"; "a"] "<PAD>" H).
Defined.

(** X7: for any input with [N] distinct tokens, the keys of
    [index_to_word] are [0, 1, ..., N] in this order, the padding symbol
    is what index [N] holds, and [N] is the index of the padding symbol. *)
Theorem index_to_word_keys_dense (words : list string) :
  PyDict.keys (snd (create_lookup_tables words))
  = seq 0 (S (distinct_count words))
  /\ PyDict.get Nat.eqb (snd (create_lookup_tables words))
       (distinct_count words) = Some "<PAD>"
  /\ PyDict.get String.eqb (fst (create_lookup_tables words)) "<PAD>"
     = Some (distinct_count words).
Proof.
  rewrite <- sorted_vocab_length. split; [|split].
  - rewrite create_lookup_tables_eq. cbn [snd].
    unfold PyDict.keys. rewrite map_app, enumerate_fst, seq_S. reflexivity.
  - rewrite get_int_to_vocab. now rewrite Nat.eqb_refl.
  - apply get_vocab_to_int. now left.
Qed.

Section DictLength.
Context {K V : Type} (eqb : K -> K -> bool).

Lemma keys_length (d : PyDict.dict (K:=K) (V:=V)) :
  List.length (PyDict.keys d) = PyDict.len d.
Proof. apply length_map. Qed.
End DictLength.

(** X8: [index_to_word] always has [N + 1] entries; [word_to_index] has
    [N + 1] entries, or only [N] when the input holds the padding symbol. *)
Theorem lookup_tables_sizes (words : list string) :
  PyDict.len (snd (create_lookup_tables words)) = S (distinct_count words)
  /\ PyDict.len (fst (create_lookup_tables words))
     = if in_dec string_dec "<PAD>" words
       then distinct_count words else S (distinct_count words).
Proof.
  rewrite <- sorted_vocab_length. rewrite create_lookup_tables_eq.
  cbn [fst snd]. split.
  - unfold PyDict.len. rewrite length_app, enumerate_length. simpl. lia.
  - rewrite <- !keys_length.
    destruct (keys_set_cases String.eqb string_eqb_eq
                (map swap_item (PyList.enumerate (sorted_vocab_of words)))
                "<PAD>" (List.length (sorted_vocab_of words)))
      as [[Hin ->]|[Hnot ->]];
      rewrite swapped_keys in *;
      destruct (in_dec string_dec "<PAD>" words) as [Hp|Hp].
    + reflexivity.
    + exfalso. apply Hp. now apply sorted_vocab_In.
    + exfalso. apply Hnot. now apply sorted_vocab_In.
    + rewrite length_app. simpl. lia.
Qed.

(** X9: the words of the vocabulary are the words of the input and the
    padding symbol, nothing else, on both sides. *)
Theorem lookup_tables_words (words : list string) (w : string) :
  (In w (PyDict.keys (fst (create_lookup_tables words)))
   <-> In w words \/ w = "<PAD>")
  /\ (In w (PyDict.values (snd (create_lookup_tables words)))
      <-> In w words \/ w = "<PAD>").
Proof.
  rewrite create_lookup_tables_eq. cbn [fst snd]. split.
  - rewrite (keys_set_In String.eqb string_eqb_eq), swapped_keys.
    rewrite sorted_vocab_In. tauto.
  - unfold PyDict.values. rewrite map_app, enumerate_snd, in_app_iff.
    rewrite sorted_vocab_In. simpl. intuition congruence.
Qed.

(** X10: [index_to_word] lists the words by non-increasing frequency: of
    two indices below [N], the lower one holds a word that occurs at least
    as often. *)
Theorem index_to_word_by_frequency (words : list string) (i j : nat)
  (a b : string) :
  i < j -> j < distinct_count words ->
  PyDict.get Nat.eqb (snd (create_lookup_tables words)) i = Some a ->
  PyDict.get Nat.eqb (snd (create_lookup_tables words)) j = Some b ->
  count_occ string_dec words b <= count_occ string_dec words a.
Proof.
  rewrite <- sorted_vocab_length, !get_int_to_vocab.
  intros Hij Hj Ha Hb.
  destruct (Nat.eqb_spec (List.length (sorted_vocab_of words)) i); [lia|].
  destruct (Nat.eqb_spec (List.length (sorted_vocab_of words)) j); [lia|].
  exact (sorted_vocab_order words i j a b Hij Ha Hb).
Qed.

Lemma index_to_word_by_frequency_witness :
  0 < 1 /\ 1 < distinct_count ["cat"; "a"; "a"]
  /\ PyDict.get Nat.eqb (snd (create_lookup_tables ["cat"; "a"; "a"])) 0
     = Some "a"
  /\ PyDict.get Nat.eqb (snd (create_lookup_tables ["cat"; "a"; "a"])) 1
     = Some "cat"
  /\ count_occ string_dec ["cat"; "a"; "a"] "cat"
     <= count_occ string_dec ["cat"; "a"; "a"] "a".
Proof.
  assert (H1 : 0 < 1) by lia.
  assert (H2 : 1 < distinct_count ["cat"; "a"; "a"]) by (vm_compute; lia).
  assert (H3 : PyDict.get Nat.eqb
                 (snd (create_lookup_tables ["cat"; "a"; "a"])) 0 = Some "a")
    by reflexivity.
  assert (H4 : PyDict.get Nat.eqb
                 (snd (create_lookup_tables ["cat"; "a"; "a"])) 1
               = Some "cat") by reflexivity.
  split; [exact H1|]. split; [exact H2|]. split; [exact H3|].
  split; [exact H4|].
  exact (index_to_word_by_frequency ["cat"; "a"; "a"] 0 1 "a" "cat"
           H1 H2 H3 H4).
Defined.

(** X11: ties are broken by first appearance: of two words that occur
    equally often, the one met first in the input gets the lower index
    (unless it is the padding symbol, which goes last). *)
Theorem equal_count_first_seen_lower_index (words : list string)
  (w1 w2 : string) (p1 p2 : nat) :
  PyList.index w1 words = Some p1 ->
  PyList.index w2 words = Some p2 ->
  p1 < p2 ->
  count_occ string_dec words w1 = count_occ string_dec words w2 ->
  w1 <> "<PAD>" ->
  frequency_ordered words w1 w2.
Proof.
  intros H1 H2 Hlt Hc Hpad.
  assert (Hprec : precedes w1 w2 (sorted_vocab_of words))
    by (apply (sorted_vocab_stable words w1 w2 p1 p2); auto; lia).
  destruct (precedes_In _ _ _ Hprec) as [Hin1 Hin2].
  apply In_nth_error in Hin1 as [i1 Hi1].
  apply In_nth_error in Hin2 as [i2 Hi2].
  pose proof (precedes_nth_error _ _ _ Hprec (sorted_vocab_NoDup words)
                i1 i2 Hi1 Hi2) as Hi.
  pose proof (nth_error_lt_length _ _ _ Hi1) as Hlt1.
  destruct (string_dec w2 "<PAD>") as [->|Hne2].
  - exists i1, (List.length (sorted_vocab_of words)).
    split; [apply get_vocab_to_int; now right|].
    split; [apply get_vocab_to_int; now left | exact Hlt1].
  - exists i1, i2.
    split; [apply get_vocab_to_int; now right|].
    split; [apply get_vocab_to_int; now right | exact Hi].
Qed.

Lemma equal_count_first_seen_lower_index_witness :
  PyList.index "dog" ["a"; "dog"; "cat"; "a"] = Some 1
  /\ PyList.index "cat" ["a"; "dog"; "cat"; "a"] = Some 2
  /\ 1 < 2
  /\ count_occ string_dec ["a"; "dog"; "cat"; "a"] "dog"
     = count_occ string_dec ["a"; "dog"; "cat"; "a"] "cat"
  /\ "dog" <> "<PAD>"
  /\ frequency_ordered ["a"; "dog"; "cat"; "a"] "dog" "cat".
Proof.
  assert (H1 : PyList.index "dog" ["a"; "dog"; "cat"; "a"] = Some 1)
    by reflexivity.
  assert (H2 : PyList.index "cat" ["a"; "dog"; "cat"; "a"] = Some 2)
    by reflexivity.
  assert (H3 : 1 < 2) by lia.
  assert (H4 : count_occ string_dec ["a"; "dog"; "cat"; "a"] "dog"
               = count_occ string_dec ["a"; "dog"; "cat"; "a"] "cat")
    by reflexivity.
  assert (H5 : "dog" <> "<PAD>") by discriminate.
  split; [exact H1|]. split; [exact H2|]. split; [exact H3|].
  split; [exact H4|]. split; [exact H5|].
  exact (equal_count_first_seen_lower_index ["a"; "dog"; "cat"; "a"]
           "dog" "cat" 1 2 H1 H2 H3 H4 H5).
Defined.

(** ** Further properties of the caption corpus loader *)

Lemma nth_error_middle {A} (done : list A) x todo :
  nth_error (done ++ x :: todo) (List.length done) = Some x.
Proof.
  rewrite nth_error_app2 by lia. now rewrite Nat.sub_diag.
Qed.

(** An assignment at or before the position of the loop leaves what is
    still to be read as it is. *)
Lemma set_item_prefix {A} (done : list A) : forall x todo j v,
  j <= List.length done ->
  exists done', PyList.set_item (done ++ x :: todo) j v = done' ++ todo
                /\ List.length done' = S (List.length done).
Proof.
  induction done as [|y done IH]; intros x todo j v Hj.
  - exists [v]. destruct j; [now split | simpl in Hj; lia].
  - destruct j as [|j].
    + exists (v :: done ++ [x]). simpl. rewrite <- app_assoc.
      split; [reflexivity|]. rewrite length_app. simpl. lia.
    + simpl in Hj. destruct (IH x todo j v ltac:(lia)) as (d' & Hset & Hl).
      exists (y :: d'). simpl. rewrite Hset. split; [reflexivity | lia].
Qed.

Lemma set_item_middle {A} (done : list A) x todo v :
  PyList.set_item (done ++ x :: todo) (List.length done) v
  = (done ++ [v]) ++ todo.
Proof.
  induction done as [|y done IH]; simpl; [reflexivity|]. now rewrite IH.
Qed.

Lemma caption_tokens_ok caption cp :
  process_caption caption = Ok cp -> caption_tokens caption = PyStr.split cp.
Proof. unfold caption_tokens. now intros ->. Qed.

(** A completed inner loop has added the tokens of the captions it still
    had to read, in order, and kept the length of the list. *)
Lemma captions_loop_tokens todo : forall done word_list captions' word_list',
  captions_loop (List.length todo) (List.length done) (done ++ todo) word_list
  = Ok (captions', word_list') ->
  word_list' = word_list ++ flat_map caption_tokens todo
  /\ List.length captions' = List.length (done ++ todo).
Proof.
  induction todo as [|c todo IH]; intros done wl caps' wl' H.
  - simpl in H. injection H as <- <-. now rewrite app_nil_r.
  - cbn [List.length captions_loop] in H.
    rewrite nth_error_middle in H.
    destruct (process_caption c) as [cp|e] eqn:Hp; [|discriminate H].
    destruct (index_found _ _ _ (nth_error_middle done c todo))
      as (j & Hj & Hle).
    rewrite Hj in H.
    destruct (set_item_prefix done c todo j cp Hle) as (done' & Hset & Hlen).
    rewrite Hset, <- Hlen in H.
    apply IH in H as [-> Hl]. split.
    + cbn [flat_map]. rewrite (caption_tokens_ok _ _ Hp), app_assoc.
      reflexivity.
    + rewrite Hl, !length_app. simpl. lia.
Qed.

Lemma values_loop_ok d : forall word_list d' word_list',
  values_loop d word_list = Ok (d', word_list') ->
  word_list' = word_list
               ++ flat_map (flat_map caption_tokens) (PyDict.values d)
  /\ PyDict.keys d' = PyDict.keys d
  /\ map (@List.length string) (PyDict.values d')
     = map (@List.length string) (PyDict.values d).
Proof.
  induction d as [|[image captions] d IH]; intros wl d' wl' H.
  - simpl in H. injection H as <- <-. now rewrite app_nil_r.
  - simpl in H.
    destruct (captions_loop (List.length captions) 0 captions wl)
      as [[captions1 wl1]|e] eqn:Hloop; [|discriminate H].
    destruct (values_loop d wl1) as [[d1 wl2]|e] eqn:Hrest; [|discriminate H].
    injection H as <- <-.
    apply (captions_loop_tokens captions []) in Hloop as [-> Hl].
    apply IH in Hrest as (-> & Hk & Hv).
    simpl. rewrite Hk, Hv, Hl, <- app_assoc. now repeat split.
Qed.

(** X12: when the loader returns, its word list holds the tokens of every
    normalized caption, in processing order: image after image, caption
    after caption, token after token. *)
Theorem load_image_captions_word_list
  (captions_dict captions_dict' : PyDict.dict (K:=string) (V:=list string))
  (word_list : list string) :
  load_image_captions_from_json captions_dict = Ok (captions_dict', word_list) ->
  word_list = flat_map (flat_map caption_tokens) (PyDict.values captions_dict).
Proof.
  unfold load_image_captions_from_json. intros H.
  now apply values_loop_ok in H as (-> & _ & _).
Qed.

Lemma load_image_captions_word_list_witness :
  load_image_captions_from_json
    [("img1", ["A cat."; "A DOG!"]); ("img2", ["Two (small) dogs"])]
  = Ok ([("img1", ["<s> a cat </s>"; "<s> a dog <EXCLAMATION_MARK> </s>"]);
         ("img2", ["<s> two <LEFT_PAREN> small <RIGHT_PAREN> dogs </s>"])],
        ["<s>"; "a"; "cat"; "</s>";
         "<s>"; "a"; "dog"; "<EXCLAMATION_MARK>"; "</s>";
         "<s>"; "two"; "<LEFT_PAREN>"; "small"; "<RIGHT_PAREN>"; "dogs";
         "</s>"])
  /\ ["<s>"; "a"; "cat"; "</s>";
      "<s>"; "a"; "dog"; "<EXCLAMATION_MARK>"; "</s>";
      "<s>"; "two"; "<LEFT_PAREN>"; "small"; "<RIGHT_PAREN>"; "dogs"; "</s>"]
     = flat_map (flat_map caption_tokens)
         (PyDict.values
            [("img1", ["A cat."; "A DOG!"]); ("img2", ["Two (small) dogs"])]).
Proof.
  assert (H : load_image_captions_from_json
                [("img1", ["A cat."; "A DOG!"]);
                 ("img2", ["Two (small) dogs"])]
              = Ok ([("img1", ["<s> a cat </s>";
                               "<s> a dog <EXCLAMATION_MARK> </s>"]);
                     ("img2",
                      ["<s> two <LEFT_PAREN> small <RIGHT_PAREN> dogs </s>"])],
                    ["<s>"; "a"; "cat"; "</s>";
                     "<s>"; "a"; "dog"; "<EXCLAMATION_MARK>"; "</s>";
                     "<s>"; "two"; "<LEFT_PAREN>"; "small"; "<RIGHT_PAREN>";
                     "dogs"; "</s>"])) by (vm_compute; reflexivity).
  split; [exact H|].
  exact (load_image_captions_word_list _ _ _ H).
Defined.

(** X13: when the loader returns, the mapping it returns has the images
    of the document, in the same order, each with as many captions as
    before. *)
Theorem load_image_captions_same_layout
  (captions_dict captions_dict' : PyDict.dict (K:=string) (V:=list string))
  (word_list : list string) :
  load_image_captions_from_json captions_dict = Ok (captions_dict', word_list) ->
  PyDict.keys captions_dict' = PyDict.keys captions_dict
  /\ map (@List.length string) (PyDict.values captions_dict')
     = map (@List.length string) (PyDict.values captions_dict).
Proof.
  unfold load_image_captions_from_json. intros H.
  now apply values_loop_ok in H as (_ & Hk & Hv).
Qed.

Lemma load_image_captions_same_layout_witness :
  load_image_captions_from_json [("img1", ["A cat."; "A DOG!"])]
  = Ok ([("img1", ["<s> a cat </s>"; "<s> a dog <EXCLAMATION_MARK> </s>"])],
        ["<s>"; "a"; "cat"; "</s>";
         "<s>"; "a"; "dog"; "<EXCLAMATION_MARK>"; "</s>"])
  /\ PyDict.keys
       [("img1", ["<s> a cat </s>"; "<s> a dog <EXCLAMATION_MARK> </s>"])]
     = PyDict.keys [("img1", ["A cat."; "A DOG!"])]
  /\ map (@List.length string)
       (PyDict.values
          [("img1", ["<s> a cat </s>"; "<s> a dog <EXCLAMATION_MARK> </s>"])])
     = map (@List.length string)
         (PyDict.values [("img1", ["A cat."; "A DOG!"])]).
Proof.
  assert (H : load_image_captions_from_json [("img1", ["A cat."; "A DOG!"])]
              = Ok ([("img1", ["<s> a cat </s>";
                               "<s> a dog <EXCLAMATION_MARK> </s>"])],
                    ["<s>"; "a"; "cat"; "</s>";
                     "<s>"; "a"; "dog"; "<EXCLAMATION_MARK>"; "</s>"]))
    by (vm_compute; reflexivity).
  split; [exact H|].
  exact (load_image_captions_same_layout _ _ _ H).
Defined.

Lemma process_caption_ok caption :
  quote_stripped caption <> EmptyString ->
  exists cp, process_caption caption = Ok cp.
Proof.
  intros H. unfold process_caption. fold (quote_stripped caption).
  destruct (PyStr.last_char (quote_stripped caption)) eqn:E.
  - eexists. reflexivity.
  - apply last_char_None in E. contradiction.
Qed.

Lemma captions_loop_succeeds todo : forall done word_list,
  (forall caption, In caption todo -> quote_stripped caption <> EmptyString) ->
  exists captions' word_list',
    captions_loop (List.length todo) (List.length done) (done ++ todo) word_list
    = Ok (captions', word_list').
Proof.
  induction todo as [|c todo IH]; intros done wl H.
  - simpl. eauto.
  - cbn [List.length captions_loop]. rewrite nth_error_middle.
    destruct (process_caption_ok c (H c (or_introl eq_refl))) as (cp & ->).
    destruct (index_found _ _ _ (nth_error_middle done c todo))
      as (j & -> & Hle).
    destruct (set_item_prefix done c todo j cp Hle) as (done' & -> & Hlen).
    rewrite <- Hlen. apply IH. intros c' Hc'. apply H. now right.
Qed.

Lemma values_loop_succeeds d : forall word_list,
  (forall image captions caption,
     In (image, captions) d -> In caption captions ->
     quote_stripped caption <> EmptyString) ->
  exists d' word_list', values_loop d word_list = Ok (d', word_list').
Proof.
  induction d as [|[image captions] d IH]; intros wl H.
  - simpl. eauto.
  - simpl.
    destruct (captions_loop_succeeds captions [] wl) as (c1 & wl1 & Hloop).
    { intros c Hc. apply (H image captions c); [now left | exact Hc]. }
    simpl in Hloop. rewrite Hloop.
    destruct (IH wl1) as (d1 & wl2 & ->).
    { intros i cs c Hi Hc. apply (H i cs c); [now right | exact Hc]. }
    eauto.
Qed.

(** X14: the loader returns (raises nothing) when no caption of the
    document is empty once lowercased and stripped of quotes. *)
Theorem load_image_captions_succeeds
  (captions_dict : PyDict.dict (K:=string) (V:=list string)) :
  (forall image captions caption,
     In (image, captions) (PyDict.items captions_dict) ->
     In caption captions ->
     quote_stripped caption <> EmptyString) ->
  exists captions_dict' word_list,
    load_image_captions_from_json captions_dict
    = Ok (captions_dict', word_list).
Proof. apply values_loop_succeeds. Qed.

Lemma load_image_captions_succeeds_witness :
  (forall image captions caption,
     In (image, captions) (PyDict.items [("img1", ["A cat."; "A DOG!"])]) ->
     In caption captions ->
     quote_stripped caption <> EmptyString)
  /\ exists captions_dict' word_list,
       load_image_captions_from_json [("img1", ["A cat."; "A DOG!"])]
       = Ok (captions_dict', word_list).
Proof.
  assert (H : forall image captions caption,
            In (image, captions)
              (PyDict.items [("img1", ["A cat."; "A DOG!"])]) ->
            In caption captions ->
            quote_stripped caption <> EmptyString).
  { intros image captions caption [[= <- <-]|[]] [<-|[<-|[]]];
      vm_compute; discriminate. }
  split; [exact H|].
  exact (load_image_captions_succeeds [("img1", ["A cat."; "A DOG!"])] H).
Defined.

(** *** Replacement in place *)

Lemma process_caption_start caption cp :
  process_caption caption = Ok cp -> PyStr.startswith "<s> " cp = true.
Proof.
  unfold process_caption.
  destruct (PyStr.last_char _); [|discriminate].
  intros [= <-]. reflexivity.
Qed.

Lemma startswith_differ p a b :
  PyStr.startswith p a = true -> PyStr.startswith p b = false -> a <> b.
Proof. intros Ha Hb ->. congruence. Qed.

Lemma index_middle done : forall x todo,
  Forall (fun y => y <> x) done ->
  PyList.index x (done ++ x :: todo) = Some (List.length done).
Proof.
  induction done as [|y done IH]; intros x todo H; simpl.
  - now rewrite String.eqb_refl.
  - inversion H as [|? ? Hy Hd]; subst.
    destruct (String.eqb_spec y x) as [->|_]; [contradiction|].
    now rewrite IH.
Qed.

(** When no caption still to be read begins with the start marker and
    every element already written does, each caption is replaced at its
    own position. *)
Lemma captions_loop_in_place todo : forall done word_list captions' word_list',
  Forall (fun y => PyStr.startswith "<s> " y = true) done ->
  Forall (fun c => PyStr.startswith "<s> " c = false) todo ->
  captions_loop (List.length todo) (List.length done) (done ++ todo) word_list
  = Ok (captions', word_list') ->
  captions' = done ++ map normalized_caption todo.
Proof.
  induction todo as [|c todo IH]; intros done wl caps' wl' Hd Ht H.
  - simpl in H. now injection H as <- _.
  - inversion Ht as [|? ? Hc Ht']; subst.
    cbn [List.length captions_loop] in H.
    rewrite nth_error_middle in H.
    destruct (process_caption c) as [cp|e] eqn:Hp; [|discriminate H].
    rewrite index_middle in H.
    2:{ eapply Forall_impl; [|exact Hd]. intros y Hy.
        exact (startswith_differ _ _ _ Hy Hc). }
    rewrite set_item_middle in H.
    replace (S (List.length done)) with (List.length (done ++ [cp])) in H
      by (rewrite length_app; simpl; lia).
    apply IH in H; [| |exact Ht'].
    + rewrite H, <- app_assoc. cbn [map app].
      unfold normalized_caption at 2. now rewrite Hp.
    + apply Forall_app. split; [exact Hd|].
      constructor; [|constructor]. exact (process_caption_start _ _ Hp).
Qed.

Lemma values_loop_in_place d : forall word_list d' word_list',
  (forall image captions caption,
     In (image, captions) d -> In caption captions ->
     PyStr.startswith "<s> " caption = false) ->
  values_loop d word_list = Ok (d', word_list') ->
  d' = map (fun ic => (fst ic, map normalized_caption (snd ic))) d.
Proof.
  induction d as [|[image captions] d IH]; intros wl d' wl' Hs H.
  - simpl in H. now injection H as <- _.
  - simpl in H.
    destruct (captions_loop (List.length captions) 0 captions wl)
      as [[captions1 wl1]|e] eqn:Hloop; [|discriminate H].
    destruct (values_loop d wl1) as [[d1 wl2]|e] eqn:Hrest; [|discriminate H].
    injection H as <- _.
    apply (captions_loop_in_place captions []) in Hloop; [|constructor|].
    + apply IH in Hrest.
      * simpl. now rewrite Hloop, Hrest.
      * intros i cs c Hi Hc. apply (Hs i cs c); [now right | exact Hc].
    + apply Forall_forall. intros c Hc.
      apply (Hs image captions c); [now left | exact Hc].
Qed.

(** X15: when no raw caption begins with the start marker followed by a
    space, a returning loader has replaced every caption, at its own
    position, by its normalized form. *)
Theorem load_image_captions_in_place
  (captions_dict captions_dict' : PyDict.dict (K:=string) (V:=list string))
  (word_list : list string) :
  (forall image captions caption,
     In (image, captions) (PyDict.items captions_dict) ->
     In caption captions ->
     PyStr.startswith "<s> " caption = false) ->
  load_image_captions_from_json captions_dict = Ok (captions_dict', word_list) ->
  captions_dict'
  = map (fun ic => (fst ic, map normalized_caption (snd ic))) captions_dict.
Proof.
  unfold load_image_captions_from_json. intros Hs H.
  exact (values_loop_in_place _ _ _ _ Hs H).
Qed.

Lemma load_image_captions_in_place_witness :
  (forall image captions caption,
     In (image, captions) (PyDict.items [("img1", ["A cat."; "A cat."])]) ->
     In caption captions ->
     PyStr.startswith "<s> " caption = false)
  /\ load_image_captions_from_json [("img1", ["A cat."; "A cat."])]
     = Ok ([("img1", ["<s> a cat </s>"; "<s> a cat </s>"])],
           ["<s>"; "a"; "cat"; "</s>"; "<s>"; "a"; "cat"; "</s>"])
  /\ [("img1", ["<s> a cat </s>"; "<s> a cat </s>"])]
     = map (fun ic => (fst ic, map normalized_caption (snd ic)))
         [("img1", ["A cat."; "A cat."])].
Proof.
  assert (Hs : forall image captions caption,
             In (image, captions)
               (PyDict.items [("img1", ["A cat."; "A cat."])]) ->
             In caption captions ->
             PyStr.startswith "<s> " caption = false).
  { intros image captions caption [[= <- <-]|[]] [<-|[<-|[]]];
      reflexivity. }
  assert (H : load_image_captions_from_json [("img1", ["A cat."; "A cat."])]
              = Ok ([("img1", ["<s> a cat </s>"; "<s> a cat </s>"])],
                    ["<s>"; "a"; "cat"; "</s>"; "<s>"; "a"; "cat"; "</s>"]))
    by (vm_compute; reflexivity).
  split; [exact Hs|]. split; [exact H|].
  exact (load_image_captions_in_place _ _ _ Hs H).
Defined.

(** The same loop does not replace in place when a raw caption equals an
    element written before it: [captions.index] then finds that element. *)
Lemma load_image_captions_not_in_place_example :
  load_image_captions_from_json [("img1", ["A cat"; "<s> a cat </s>"])]
  = Ok ([("img1", ["<s> <s> a cat </s> </s>"; "<s> a cat </s>"])],
        ["<s>"; "a"; "cat"; "</s>"; "<s>"; "<s>"; "a"; "cat"; "</s>"; "</s>"]).
Proof. vm_compute. reflexivity. Qed.

(** X16: when the three splits load, the word list that
    [load_and_process_captions_flickr8k] returns is made of the tokens of
    the train split alone, in processing order; the validation and test
    splits add nothing to it, and each returned mapping has the images of
    its document. *)
Theorem load_and_process_word_list_from_train
  (train val test train' val' test'
     : PyDict.dict (K:=string) (V:=list string))
  (word_list : list string) :
  load_and_process_captions_flickr8k train val test
  = Ok (train', val', test', word_list) ->
  word_list = flat_map (flat_map caption_tokens) (PyDict.values train)
  /\ PyDict.keys train' = PyDict.keys train
  /\ PyDict.keys val' = PyDict.keys val
  /\ PyDict.keys test' = PyDict.keys test.
Proof.
  unfold load_and_process_captions_flickr8k, load_image_captions_from_json.
  destruct (values_loop train []) as [[a wa]|e] eqn:Ha; [|discriminate].
  destruct (values_loop val []) as [[b wb]|e] eqn:Hb; [|discriminate].
  destruct (values_loop test []) as [[c wc]|e] eqn:Hc; [|discriminate].
  intros [= <- <- <- <-].
  apply values_loop_ok in Ha as (-> & Hka & _).
  apply values_loop_ok in Hb as (_ & Hkb & _).
  apply values_loop_ok in Hc as (_ & Hkc & _).
  now repeat split.
Qed.

Lemma load_and_process_word_list_from_train_witness :
  load_and_process_captions_flickr8k
    [("img1", ["A cat."])] [("img2", ["A DOG!"])] [("img3", ["Two birds"])]
  = Ok ([("img1", ["<s> a cat </s>"])],
        [("img2", ["<s> a dog <EXCLAMATION_MARK> </s>"])],
        [("img3", ["<s> two birds </s>"])],
        ["<s>"; "a"; "cat"; "</s>"])
  /\ ["<s>"; "a"; "cat"; "</s>"]
     = flat_map (flat_map caption_tokens)
         (PyDict.values [("img1", ["A cat."])])
  /\ PyDict.keys [("img1", ["<s> a cat </s>"])]
     = PyDict.keys [("img1", ["A cat."])]
  /\ PyDict.keys [("img2", ["<s> a dog <EXCLAMATION_MARK> </s>"])]
     = PyDict.keys [("img2", ["A DOG!"])]
  /\ PyDict.keys [("img3", ["<s> two birds </s>"])]
     = PyDict.keys [("img3", ["Two birds"])].
Proof.
  assert (H : load_and_process_captions_flickr8k
                [("img1", ["A cat."])] [("img2", ["A DOG!"])]
                [("img3", ["Two birds"])]
              = Ok ([("img1", ["<s> a cat </s>"])],
                    [("img2", ["<s> a dog <EXCLAMATION_MARK> </s>"])],
                    [("img3", ["<s> two birds </s>"])],
                    ["<s>"; "a"; "cat"; "</s>"]))
    by (vm_compute; reflexivity).
  split; [exact H|].
  exact (load_and_process_word_list_from_train _ _ _ _ _ _ _ H).
Defined.

Lemma load_raises_IndexError_only d e :
  load_image_captions_from_json d = Raise e -> e = IndexError.
Proof.
  unfold load_image_captions_from_json. generalize (@nil string).
  induction d as [|[image captions] d IH]; intros wl H; [discriminate H|].
  simpl in H.
  destruct (captions_loop (List.length captions) 0 captions wl)
    as [[c1 wl1]|e1] eqn:Hloop.
  - destruct (values_loop d wl1) as [[d1 wl2]|e2] eqn:Hrest;
      [discriminate H|].
    injection H as <-. exact (IH wl1 Hrest).
  - injection H as <-. exact (captions_loop_raises _ _ _ _ _ Hloop).
Qed.

(** X17: a caption that is empty once lowercased and stripped of quotes,
    in any of the three splits, makes
    [load_and_process_captions_flickr8k] raise the IndexError: no split is
    returned, not even those that loaded. *)
Theorem load_and_process_empty_caption_raises
  (train val test : PyDict.dict (K:=string) (V:=list string))
  (image : string) (captions : list string) (caption : string) :
  In (image, captions) (train ++ val ++ test) ->
  In caption captions ->
  quote_stripped caption = EmptyString ->
  load_and_process_captions_flickr8k train val test = Raise IndexError.
Proof.
  intros Hd Hc He. unfold load_and_process_captions_flickr8k.
  assert (Hbad : forall d, In (image, captions) d ->
                 load_image_captions_from_json d = Raise IndexError).
  { intros d Hin.
    exact (values_loop_stripped_empty d [] image captions caption Hin Hc He). }
  destruct (load_image_captions_from_json train) as [[a wa]|e] eqn:Ha.
  2:{ now rewrite (load_raises_IndexError_only _ _ Ha). }
  destruct (load_image_captions_from_json val) as [[b wb]|e] eqn:Hb.
  2:{ now rewrite (load_raises_IndexError_only _ _ Hb). }
  destruct (load_image_captions_from_json test) as [[c wc]|e] eqn:Hc'.
  2:{ now rewrite (load_raises_IndexError_only _ _ Hc'). }
  apply in_app_or in Hd as [Hd|Hd]; [rewrite (Hbad _ Hd) in Ha; discriminate|].
  apply in_app_or in Hd as [Hd|Hd]; [rewrite (Hbad _ Hd) in Hb; discriminate|].
  rewrite (Hbad _ Hd) in Hc'. discriminate.
Qed.

Lemma load_and_process_empty_caption_raises_witness :
  In ("img3", ["''"])
    ([("img1", ["A cat."])] ++ [("img2", ["A DOG!"])] ++ [("img3", ["''"])])
  /\ In "''" ["''"]
  /\ quote_stripped "''" = EmptyString
  /\ load_and_process_captions_flickr8k
       [("img1", ["A cat."])] [("img2", ["A DOG!"])] [("img3", ["''"])]
     = Raise IndexError.
Proof.
  assert (H1 : In ("img3", ["''"])
                 ([("img1", ["A cat."])] ++ [("img2", ["A DOG!"])]
                  ++ [("img3", ["''"])])) by (simpl; tauto).
  assert (H2 : In "''" ["''"]) by (simpl; tauto).
  assert (H3 : quote_stripped "''" = EmptyString) by reflexivity.
  split; [exact H1|]. split; [exact H2|]. split; [exact H3|].
  exact (load_and_process_empty_caption_raises _ _ _ _ _ _ H1 H2 H3).
Defined.

(** *** Start and end markers *)

Lemma split_from_app_space x : forall cur rest,
  PyStr.split_from cur (x ++ String " " rest)
  = PyStr.split_from cur x ++ PyStr.split_from [] rest.
Proof.
  induction x as [|c x IH]; intros cur rest.
  - reflexivity.
  - cbn [append PyStr.split_from]. destruct (PyStr.isspace c).
    + rewrite IH. now rewrite app_assoc.
    + apply IH.
Qed.

Lemma split_start_marker y :
  PyStr.split ("<s> " ++ y) = "<s>" :: PyStr.split y.
Proof. reflexivity. Qed.

Lemma split_wrapped x :
  PyStr.split ("<s> " ++ x ++ " </s>")
  = "<s>" :: PyStr.split x ++ ["</s>"].
Proof.
  rewrite split_start_marker. unfold PyStr.split.
  now rewrite split_from_app_space.
Qed.

(** X29: the tokens of a normalized caption begin with the start marker
    and end with the end marker. *)
Theorem normalized_caption_markers (caption caption_processed : string) :
  process_caption caption = Ok caption_processed ->
  exists middle,
    PyStr.split caption_processed = "<s>" :: middle ++ ["</s>"].
Proof.
  unfold process_caption.
  destruct (PyStr.last_char _) as [c|]; [|discriminate].
  intros [= <-]. eexists. apply split_wrapped.
Qed.

Lemma normalized_caption_markers_witness :
  process_caption "A DOG!" = Ok "<s> a dog <EXCLAMATION_MARK> </s>"
  /\ exists middle,
       PyStr.split "<s> a dog <EXCLAMATION_MARK> </s>"
       = "<s>" :: middle ++ ["</s>"].
Proof.
  assert (H : process_caption "A DOG!"
              = Ok "<s> a dog <EXCLAMATION_MARK> </s>")
    by (vm_compute; reflexivity).
  split; [exact H|].
  exact (normalized_caption_markers "A DOG!" _ H).
Defined.

(** ** Further properties of the training and inference loops *)

Lemma Forall2_In_l {A B} (P : A -> B -> Prop) l l' x :
  Forall2 P l l' -> In x l -> exists y, In y l' /\ P x y.
Proof.
  induction 1 as [|a b l l' Hab HF IH]; intros Hin; [destruct Hin|].
  destruct Hin as [->|Hin].
  - exists b. split; [now left | exact Hab].
  - destruct (IH Hin) as (y & Hy & HP). exists y. split; [now right | exact HP].
Qed.

Section TraceCounts.
Context {Pix Score : Type}.

Lemma optimizer_steps_app (a b : list (event Pix Score)) :
  optimizer_steps (a ++ b) = optimizer_steps a + optimizer_steps b.
Proof. unfold optimizer_steps. now rewrite flat_map_app, length_app. Qed.

Lemma zero_grad_calls_app (a b : list (event Pix Score)) :
  zero_grad_calls (a ++ b) = zero_grad_calls a + zero_grad_calls b.
Proof. unfold zero_grad_calls. now rewrite flat_map_app, length_app. Qed.

Lemma scalars_app (a b : list (event Pix Score)) :
  scalars (a ++ b) = scalars a ++ scalars b.
Proof. unfold scalars. now rewrite flat_map_app. Qed.

Lemma batch_traces_counts epoch (train_data : list (tensor Pix * tensor Z)) trs :
  Forall2 (batch_trace (Score:=Score) epoch) train_data trs ->
  optimizer_steps (List.concat trs) = List.length train_data
  /\ zero_grad_calls (List.concat trs) = List.length train_data
  /\ List.length (scalars (List.concat trs)) = List.length train_data
  /\ Forall (fun e => fst (fst e) = "Loss/train" /\ snd e = epoch)
       (scalars (List.concat trs)).
Proof.
  induction 1 as [|b tr l trs' Hb HF (IH1 & IH2 & IH3 & IH4)].
  - repeat split. constructor.
  - destruct Hb as (t & prefix & outr & value & _ & _ & ->).
    cbn [List.concat].
    rewrite optimizer_steps_app, zero_grad_calls_app, scalars_app, IH1, IH2.
    split; [reflexivity|]. split; [reflexivity|]. split.
    + rewrite length_app, IH3. reflexivity.
    + apply Forall_app. split; [|exact IH4].
      constructor; [now split | constructor].
Qed.
End TraceCounts.

Section LoopMoreFacts.
Context {W Pix Score LossT Item : Type}.

Local Abbreviation St := (state (W:=W) (Pix:=Pix) (Score:=Score)).

Lemma bind_any {A B} (m : M A) (k : A -> M B) (s s' : St) r :
  bind m k s = (s', r) ->
  (exists s1 a, m s = (s1, Ok a) /\ k a s1 = (s', r))
  \/ (exists e, m s = (s', Raise e) /\ r = Raise e).
Proof.
  unfold bind. destruct (m s) as [s1 [a|e]].
  - intros H. left. now exists s1, a.
  - intros [= <- <-]. right. now exists e.
Qed.

Lemma call_any {A} e (f : W -> result (W * A)) (s s' : St) r :
  call e f s = (s', r) -> trace s' = trace s ++ [e].
Proof.
  unfold call. destruct (f (world s)) as [[w' a']|x]; now intros [= <- _].
Qed.

Lemma lift_any {A} (x : result A) (s s' : St) r :
  lift x s = (s', r) -> s' = s.
Proof. unfold lift. now intros [= <- _]. Qed.

Variables (model : Module_ (W:=W) (Pix:=Pix) (Score:=Score) (Item:=Item))
          (loss : Loss (W:=W) (Score:=Score) (LossT:=LossT))
          (optimizer : Optimizer (W:=W))
          (writer : SummaryWriter (W:=W) (Score:=Score))
          (epoch : Z) (device : string).

(** X18: the calls of a completed run of the training loop are, in this
    order, [model.to], [model.train], and for every batch in turn
    [optimizer.zero_grad], the model, the loss, [backward],
    [optimizer.step], [writer.add_scalar]. *)
Theorem train_step_call_sequence train_data (s s' : St) :
  train_step model train_data loss optimizer writer epoch device s
    = (s', Ok tt) ->
  exists trs,
    trace s' = trace s ++ [EvModelTo device; EvModelTrain] ++ List.concat trs
    /\ Forall2 (batch_trace epoch) train_data trs.
Proof. apply train_step_trace. Qed.

(** X19: a completed run of the training loop over [K] batches clears the
    gradients [K] times, steps the optimizer [K] times and writes [K]
    scalars, each named "Loss/train" and keyed by the epoch. *)
Theorem train_step_counts train_data (s s' : St) :
  train_step model train_data loss optimizer writer epoch device s
    = (s', Ok tt) ->
  exists tr,
    trace s' = trace s ++ tr
    /\ zero_grad_calls tr = List.length train_data
    /\ optimizer_steps tr = List.length train_data
    /\ List.length (scalars tr) = List.length train_data
    /\ Forall (fun e => fst (fst e) = "Loss/train" /\ snd e = epoch)
         (scalars tr).
Proof.
  intros H. apply train_step_trace in H as (trs & Htr & HF).
  apply batch_traces_counts in HF as (H1 & H2 & H3 & H4).
  eexists. split; [exact Htr|].
  rewrite zero_grad_calls_app, optimizer_steps_app, scalars_app.
  cbn [app]. repeat split; try assumption.
Qed.

(** X20: the training loop completes only on batches whose targets are
    2-D: with a batch of any other rank, it raises. *)
Theorem train_step_needs_2d_targets train_data batch (s : St) :
  In batch train_data ->
  (forall B L, shape (snd batch) <> [B; L]) ->
  exists e,
    snd (train_step model train_data loss optimizer writer epoch device s)
    = Raise e.
Proof.
  intros Hin Hshape.
  destruct (train_step model train_data loss optimizer writer epoch device s)
    as [s' [[]|e]] eqn:H; [|now exists e].
  exfalso. apply train_step_trace in H as (trs & _ & HF).
  destruct (Forall2_In_l _ _ _ _ HF Hin)
    as (tr & _ & t & _ & _ & _ & Hperm & _).
  unfold Torch.permute_1_0 in Hperm.
  destruct (shape (snd batch)) as [|r [|c [|x sh]]] eqn:E;
    try discriminate Hperm.
  exact (Hshape r c eq_refl).
Qed.

Ltac split_bind H :=
  apply bind_any in H;
  destruct H as [(?s & ?a & ?Hm & H) | (?e & ?Hm & ->)].

Ltac trace_facts :=
  repeat match goal with
         | H : call _ _ _ = _ |- _ => apply call_any in H
         | H : lift _ _ = _ |- _ => apply lift_any in H; subst
         end.

Ltac solve_trace :=
  eexists; split;
  [ repeat match goal with
           | H : trace ?x = _ |- context [trace ?x] => rewrite H; clear H
           end;
    rewrite <- ?app_assoc;
    first [ reflexivity | symmetry; apply app_nil_r ]
  | cbn; lia ].

(** Whatever happens in one iteration, it clears the gradients at most
    once, steps the optimizer only after that, and writes a scalar only
    after the step. *)
Lemma train_batch_any_outcome body_result (batch : tensor Pix * tensor Z)
  (s s' : St) :
  (let '(inputs, targets) := batch in
   bind (lift (Torch.permute_1_0 targets)) (fun targets =>
   bind (call EvZeroGrad (zero_grad optimizer)) (fun _ =>
   bind (lift (Torch.slice_to_minus1 targets)) (fun prefix =>
   bind (call (EvForward inputs prefix) (model_call model inputs prefix))
     (fun outputs =>
   bind (lift (Torch.shape_at outputs 2)) (fun vocab =>
   bind (lift (Torch.reshape_rows outputs vocab)) (fun outputs_reshaped =>
   bind (call (EvLoss outputs_reshaped (Torch.reshape_flat targets))
           (loss_call loss outputs_reshaped (Torch.reshape_flat targets)))
     (fun loss_value =>
   bind (call EvBackward (loss_backward loss loss_value)) (fun _ =>
   bind (call EvOptimizerStep (step optimizer)) (fun _ =>
   call (EvAddScalar "Loss/train" (loss_item loss loss_value) epoch)
     (add_scalar writer "Loss/train" (loss_item loss loss_value) epoch)))))))))))
    s = (s', body_result) ->
  exists tr,
    trace s' = trace s ++ tr
    /\ (List.length (scalars tr) <= optimizer_steps tr
        /\ optimizer_steps tr <= zero_grad_calls tr
        /\ zero_grad_calls tr <= 1).
Proof.
  destruct batch as [inputs targets]. intros H.
  split_bind H; [|trace_facts; solve_trace].
  split_bind H; [|trace_facts; solve_trace].
  split_bind H; [|trace_facts; solve_trace].
  split_bind H; [|trace_facts; solve_trace].
  split_bind H; [|trace_facts; solve_trace].
  split_bind H; [|trace_facts; solve_trace].
  split_bind H; [|trace_facts; solve_trace].
  split_bind H; [|trace_facts; solve_trace].
  split_bind H; [|trace_facts; solve_trace].
  trace_facts; solve_trace.
Qed.

Lemma for_each_any_outcome {X} (body : X -> M unit) :
  (forall x (s s' : St) r, body x s = (s', r) ->
     exists tr, trace s' = trace s ++ tr
       /\ (List.length (scalars tr) <= optimizer_steps tr
           /\ optimizer_steps tr <= zero_grad_calls tr
           /\ zero_grad_calls tr <= 1)) ->
  forall l (s s' : St) r, for_each l body s = (s', r) ->
  exists tr, trace s' = trace s ++ tr
    /\ (List.length (scalars tr) <= optimizer_steps tr
        /\ optimizer_steps tr <= zero_grad_calls tr
        /\ zero_grad_calls tr <= List.length l).
Proof.
  intros Hbody. induction l as [|x l IH]; intros s s' r H; simpl in H.
  - injection H as <- _. exists []. rewrite app_nil_r.
    split; [reflexivity|]. unfold scalars, optimizer_steps, zero_grad_calls.
    simpl. lia.
  - split_bind H.
    + apply Hbody in Hm as (tr1 & Ht1 & Hc1).
      apply IH in H as (tr2 & Ht2 & Hc2).
      exists (tr1 ++ tr2). split; [now rewrite Ht2, Ht1, app_assoc|].
      rewrite scalars_app, length_app, optimizer_steps_app,
        zero_grad_calls_app. cbn [List.length]. lia.
    + apply Hbody in Hm as (tr1 & Ht1 & Hc1).
      exists tr1. split; [exact Ht1|]. cbn [List.length]. lia.
Qed.

(** X21: however a run of the training loop ends, completed or stopped by
    an exception of a collaborator, it has cleared the gradients at most
    once per batch, stepped the optimizer no more often than it cleared
    them, and written no more scalars than it made steps. *)
Theorem train_step_never_oversteps train_data (s : St) :
  exists tr,
    trace (fst (train_step model train_data loss optimizer writer epoch
                  device s))
    = trace s ++ tr
    /\ List.length (scalars tr) <= optimizer_steps tr
    /\ optimizer_steps tr <= zero_grad_calls tr
    /\ zero_grad_calls tr <= List.length train_data.
Proof.
  destruct (train_step model train_data loss optimizer writer epoch device s)
    as [s' r] eqn:H.
  cbn [fst]. unfold train_step in H.
  split_bind H; [|trace_facts; solve_trace].
  split_bind H; [|trace_facts; solve_trace].
  trace_facts.
  split_bind H.
  - injection H as <- _.
    apply for_each_any_outcome in Hm1.
    + destruct Hm1 as (tr & Ht & Hc).
      exists ([EvModelTo device; EvModelTrain] ++ tr).
      split; [rewrite Ht, Hm0, Hm, <- !app_assoc; reflexivity|].
      rewrite scalars_app, length_app, optimizer_steps_app,
        zero_grad_calls_app. cbn. cbn in Hc. lia.
    + intros [inputs targets] s3 s4 r0 Hb.
      exact (train_batch_any_outcome r0 (inputs, targets) s3 s4 Hb).
  - apply for_each_any_outcome in Hm1.
    + destruct Hm1 as (tr & Ht & Hc).
      exists ([EvModelTo device; EvModelTrain] ++ tr).
      split; [rewrite Ht, Hm0, Hm, <- !app_assoc; reflexivity|].
      rewrite scalars_app, length_app, optimizer_steps_app,
        zero_grad_calls_app. cbn. cbn in Hc. lia.
    + intros [inputs targets] s3 s4 r0 Hb.
      exact (train_batch_any_outcome r0 (inputs, targets) s3 s4 Hb).
Qed.




End LoopMoreFacts.


Lemma train_step_call_sequence_witness :
  train_step sample_model [sample_batch; sample_batch] sample_loss
    sample_optimizer sample_writer 3%Z "cpu" sample_state
  = (fst (train_step sample_model [sample_batch; sample_batch] sample_loss
            sample_optimizer sample_writer 3%Z "cpu" sample_state), Ok tt)
  /\ exists trs,
       trace (fst (train_step sample_model [sample_batch; sample_batch]
                     sample_loss sample_optimizer sample_writer 3%Z "cpu"
                     sample_state))
       = trace sample_state ++ [EvModelTo "cpu"; EvModelTrain]
           ++ List.concat trs
       /\ Forall2 (batch_trace 3%Z) [sample_batch; sample_batch] trs.
Proof.
  assert (H : train_step sample_model [sample_batch; sample_batch]
                sample_loss sample_optimizer sample_writer 3%Z "cpu"
                sample_state
              = (fst (train_step sample_model [sample_batch; sample_batch]
                        sample_loss sample_optimizer sample_writer 3%Z "cpu"
                        sample_state), Ok tt)) by reflexivity.
  split; [exact H|].
  exact (train_step_call_sequence sample_model sample_loss sample_optimizer
           sample_writer 3%Z "cpu" [sample_batch; sample_batch]
           sample_state _ H).
Defined.

Lemma train_step_counts_witness :
  train_step sample_model [sample_batch; sample_batch] sample_loss
    sample_optimizer sample_writer 3%Z "cpu" sample_state
  = (fst (train_step sample_model [sample_batch; sample_batch] sample_loss
            sample_optimizer sample_writer 3%Z "cpu" sample_state), Ok tt)
  /\ exists tr,
       trace (fst (train_step sample_model [sample_batch; sample_batch]
                     sample_loss sample_optimizer sample_writer 3%Z "cpu"
                     sample_state))
       = trace sample_state ++ tr
       /\ zero_grad_calls tr = List.length [sample_batch; sample_batch]
       /\ optimizer_steps tr = List.length [sample_batch; sample_batch]
       /\ List.length (scalars tr) = List.length [sample_batch; sample_batch]
       /\ Forall (fun e => fst (fst e) = "Loss/train" /\ snd e = 3%Z)
            (scalars tr).
Proof.
  assert (H : train_step sample_model [sample_batch; sample_batch]
                sample_loss sample_optimizer sample_writer 3%Z "cpu"
                sample_state
              = (fst (train_step sample_model [sample_batch; sample_batch]
                        sample_loss sample_optimizer sample_writer 3%Z "cpu"
                        sample_state), Ok tt)) by reflexivity.
  split; [exact H|].
  exact (train_step_counts sample_model sample_loss sample_optimizer
           sample_writer 3%Z "cpu" [sample_batch; sample_batch]
           sample_state _ H).
Defined.

Lemma train_step_needs_2d_targets_witness :
  In flat_targets_batch [sample_batch; flat_targets_batch]
  /\ (forall B L, shape (snd flat_targets_batch) <> [B; L])
  /\ exists e,
       snd (train_step sample_model [sample_batch; flat_targets_batch]
              sample_loss sample_optimizer sample_writer 3%Z "cpu"
              sample_state)
       = Raise e.
Proof.
  assert (H1 : In flat_targets_batch [sample_batch; flat_targets_batch])
    by (simpl; tauto).
  assert (H2 : forall B L, shape (snd flat_targets_batch) <> [B; L])
    by (intros B L; simpl; discriminate).
  split; [exact H1|]. split; [exact H2|].
  exact (train_step_needs_2d_targets sample_model sample_loss
           sample_optimizer sample_writer 3%Z "cpu"
           [sample_batch; flat_targets_batch] flat_targets_batch
           sample_state H1 H2).
Defined.

Section InferenceFacts.
Context {W Pix Score Item : Type}.

Local Abbreviation St := (state (W:=W) (Pix:=Pix) (Score:=Score)).

Lemma for_fold_trace {X Acc} (P : X -> list (event Pix Score) -> Prop)
  (body : Acc -> X -> M Acc) :
  (forall acc x (s s' : St) acc', body acc x s = (s', Ok acc') ->
     exists tr, trace s' = trace s ++ tr /\ P x tr) ->
  forall l acc (s s' : St) acc', for_fold l acc body s = (s', Ok acc') ->
  exists trs, trace s' = trace s ++ List.concat trs /\ Forall2 P l trs.
Proof.
  intros Hbody. induction l as [|x l IH]; intros acc s s' acc' H; simpl in H.
  - injection H as <- _. exists []. simpl. rewrite app_nil_r. now split.
  - apply bind_ok in H as (s1 & acc1 & H1 & H).
    apply Hbody in H1 as (tr & Htr & HP).
    apply IH in H as (trs & Htrs & HF).
    exists (tr :: trs). split; [|now constructor].
    simpl. rewrite Htrs, Htr, app_assoc. reflexivity.
Qed.

Lemma first_samples_called (data_ : list (tensor Pix * tensor Z)) trs :
  Forall2 (fun batch (tr : list (event Pix Score)) =>
             exists image, first_sample (fst batch) = Ok image
                           /\ tr = [EvGeneraCaptions image]) data_ trs ->
  map Ok (genera_captions_calls (List.concat trs))
  = map (fun batch => first_sample (fst batch)) data_.
Proof.
  induction 1 as [|b tr l trs' (image & Hi & ->) HF IH]; [reflexivity|].
  cbn [List.concat map]. unfold genera_captions_calls in *.
  rewrite flat_map_app, map_app, IH, Hi. reflexivity.
Qed.

Variables (model : Module_ (W:=W) (Pix:=Pix) (Score:=Score) (Item:=Item))
          (device : string)
          (word2_idx : PyDict.dict (K:=string) (V:=nat))
          (idx2_word : PyDict.dict (K:=nat) (V:=string)).

Lemma t_step_completed data_ (s s' : St) r :
  t_step model data_ device word2_idx idx2_word s = (s', Ok r) ->
  r = PyNone
  /\ exists tr,
       trace s' = trace s ++ tr
       /\ map Ok (genera_captions_calls tr)
          = map (fun batch => first_sample (fst batch)) data_.
Proof.
  unfold t_step. intros H.
  apply bind_ok in H as (s1 & [] & H1 & H). apply call_ok in H1.
  apply bind_ok in H as (s2 & [] & H2 & H). apply call_ok in H2.
  apply bind_ok in H as (s3 & predictions & H3 & H).
  injection H as <- <-. split; [reflexivity|].
  apply (for_fold_trace
           (fun batch tr =>
              exists image, first_sample (fst batch) = Ok image
                            /\ tr = [EvGeneraCaptions image])) in H3.
  - destruct H3 as (trs & Htrs & HF).
    exists ([EvModelTo device; EvModelEval] ++ List.concat trs). split.
    + rewrite Htrs, H2, H1, <- !app_assoc. reflexivity.
    + unfold genera_captions_calls. rewrite flat_map_app. cbn [flat_map app].
      now apply first_samples_called.
  - clear. intros acc [inputs targets] s s' acc' H.
    unfold Torch.to, Torch.float in H.
    apply bind_ok in H as (s1 & first & H1 & H).
    apply lift_ok in H1 as [-> Hfirst].
    apply bind_ok in H as (s2 & captions & H2 & H). apply call_ok in H2.
    injection H as <- _.
    eexists. split; [exact H2|].
    exists (Torch.unsqueeze_0 first). split; [|reflexivity].
    unfold first_sample. cbn [fst]. now rewrite Hfirst.
Qed.

(** X22: a completed run of the inference loop has asked the model for
    captions once per batch, in order, each time for the first sample of
    the batch alone, and hands back [None]. *)
Theorem t_step_first_samples data_ (s s' : St) r :
  t_step model data_ device word2_idx idx2_word s = (s', Ok r) ->
  r = PyNone
  /\ exists tr,
       trace s' = trace s ++ tr
       /\ map Ok (genera_captions_calls tr)
          = map (fun batch => first_sample (fst batch)) data_.
Proof.
  intros H. destruct (t_step_completed data_ s s' r H) as [Hr Hcalls].
  split; [exact Hr | exact Hcalls].
Qed.

(** X23: the inference loop does not complete on a loader that yields a
    batch without samples: reading the first sample raises. *)
Theorem t_step_empty_batch_raises data_ batch rest (s : St) :
  In batch data_ ->
  shape (fst batch) = 0 :: rest ->
  exists e, snd (t_step model data_ device word2_idx idx2_word s) = Raise e.
Proof.
  intros Hin Hshape.
  destruct (t_step model data_ device word2_idx idx2_word s)
    as [s' [r|e]] eqn:H; [|now exists e].
  exfalso. apply t_step_completed in H as (_ & tr & _ & Hmap).
  apply (in_map (fun b => first_sample (fst b))) in Hin.
  rewrite <- Hmap in Hin. apply in_map_iff in Hin as (image & Himg & _).
  unfold first_sample, Torch.index_0 in Himg. rewrite Hshape in Himg.
  discriminate Himg.
Qed.
End InferenceFacts.

Lemma t_step_first_samples_witness :
  t_step sample_model [sample_batch; sample_batch] "cpu"
    sample_word2_idx sample_idx2_word sample_state
  = (fst (t_step sample_model [sample_batch; sample_batch] "cpu"
            sample_word2_idx sample_idx2_word sample_state), Ok PyNone)
  /\ @PyNone string = PyNone
  /\ exists tr,
       trace (fst (t_step sample_model [sample_batch; sample_batch] "cpu"
                     sample_word2_idx sample_idx2_word sample_state))
       = trace sample_state ++ tr
       /\ map Ok (genera_captions_calls tr)
          = map (fun batch => first_sample (fst batch))
              [sample_batch; sample_batch].
Proof.
  assert (H : t_step sample_model [sample_batch; sample_batch] "cpu"
                sample_word2_idx sample_idx2_word sample_state
              = (fst (t_step sample_model [sample_batch; sample_batch] "cpu"
                        sample_word2_idx sample_idx2_word sample_state),
                 Ok PyNone)) by reflexivity.
  split; [exact H|].
  exact (t_step_first_samples sample_model "cpu" sample_word2_idx
           sample_idx2_word [sample_batch; sample_batch] sample_state _ _ H).
Defined.

Lemma t_step_empty_batch_raises_witness :
  In empty_batch [sample_batch; empty_batch]
  /\ shape (fst empty_batch) = 0 :: [1; 1]
  /\ exists e,
       snd (t_step sample_model [sample_batch; empty_batch] "cpu"
              sample_word2_idx sample_idx2_word sample_state)
       = Raise e.
Proof.
  assert (H1 : In empty_batch [sample_batch; empty_batch]) by (simpl; tauto).
  assert (H2 : shape (fst empty_batch) = 0 :: [1; 1]) by reflexivity.
  split; [exact H1|]. split; [exact H2|].
  exact (t_step_empty_batch_raises sample_model "cpu" sample_word2_idx
           sample_idx2_word [sample_batch; empty_batch] empty_batch [1; 1]
           sample_state H1 H2).
Defined.

(** ** The validation loop *)

Section ValFacts.
Context {W Pix Caption LossM Writer : Type}.

Local Abbreviation VSt := (val_state (W:=W) (Pix:=Pix) (Caption:=Caption)).

Variables (model : ValModule (W:=W) (Pix:=Pix) (Caption:=Caption))
          (loss : LossM) (writer : Writer) (epoch : Z) (device : string)
          (word2_idx : PyDict.dict (K:=string) (V:=nat))
          (idx2_word : PyDict.dict (K:=nat) (V:=string)).

Lemma vbind_ok {A B} (m : VM A) (k : A -> VM B) (s s' : VSt) b :
  vbind m k s = (s', Ok b) ->
  exists s1 a, m s = (s1, Ok a) /\ k a s1 = (s', Ok b).
Proof.
  unfold vbind. destruct (m s) as [s1 [a|e]]; [|discriminate].
  intros H. now exists s1, a.
Qed.

Lemma vcall_ok {A} e (f : W -> result (W * A)) (s s' : VSt) a :
  vcall e f s = (s', Ok a) -> val_trace s' = val_trace s ++ [e].
Proof.
  unfold vcall. destruct (f (val_world s)) as [[w' a']|x]; [|discriminate].
  intros [= <- _]. reflexivity.
Qed.

Lemma vbind_ext {A B} (m : VM A) (k1 k2 : A -> VM B) (s : VSt) :
  (forall a s1, k1 a s1 = k2 a s1) -> vbind m k1 s = vbind m k2 s.
Proof.
  intros H. unfold vbind. destruct (m s) as [s1 [a|e]]; [apply H | reflexivity].
Qed.

(** An iteration that ends normally ends at the [break]. *)
Lemma for_each_break_first {X} (body : X -> VM flow) x rest :
  (forall (s s' : VSt) f, body x s = (s', Ok f) -> f = Break) ->
  forall s : VSt,
  for_each_break (x :: rest) body s = for_each_break [x] body s.
Proof.
  intros Hb s. cbn [for_each_break]. unfold vbind.
  destruct (body x s) as [s1 [f|e]] eqn:E; [|reflexivity].
  now rewrite (Hb _ _ _ E).
Qed.

Lemma val_step_drop_rest batch rest (s : VSt) :
  val_step model (batch :: rest) loss writer epoch device word2_idx idx2_word s
  = val_step model [batch] loss writer epoch device word2_idx idx2_word s.
Proof.
  unfold val_step.
  apply vbind_ext. intros _ s1. apply vbind_ext. intros _ s2.
  apply for_each_break_first.
  clear. intros s s' f H. destruct batch as [inputs targets].
  apply vbind_ok in H as (s1 & first & _ & H).
  apply vbind_ok in H as (s2 & caption & _ & H).
  apply vbind_ok in H as (s3 & [] & _ & H).
  now injection H as _ <-.
Qed.

(** X24: the validation loop looks at its first batch only: the batches
    that follow change neither what it does nor how it ends. *)
Theorem val_step_first_batch_only batch rest (s : VSt) :
  val_step model (batch :: rest) loss writer epoch device word2_idx idx2_word s
  = val_step model [batch] loss writer epoch device word2_idx idx2_word s.
Proof.
  rewrite (val_step_drop_rest batch rest s). reflexivity.
Qed.

(** X25: a completed run of the validation loop on a loader that yields
    at least one batch has made exactly these calls: [model.to],
    [model.eval], one caption generation for the first sample of the
    first batch, and one print of that caption. *)
Theorem val_step_calls batch rest (s s' : VSt) :
  val_step model (batch :: rest) loss writer epoch device word2_idx idx2_word s
  = (s', Ok tt) ->
  exists image caption,
    first_sample (fst batch) = Ok image
    /\ val_trace s'
       = val_trace s ++ [ValModelTo device; ValModelEval;
                         ValGenerateCaption image; ValPrint caption].
Proof.
  rewrite val_step_drop_rest. unfold val_step. intros H.
  apply vbind_ok in H as (s1 & [] & H1 & H). apply vcall_ok in H1.
  apply vbind_ok in H as (s2 & [] & H2 & H). apply vcall_ok in H2.
  cbn [for_each_break] in H.
  apply vbind_ok in H as (s3 & f & H3 & H).
  destruct batch as [inputs targets].
  unfold Torch.to, Torch.float in H3.
  apply vbind_ok in H3 as (s4 & first & H4 & H3).
  unfold vlift in H4. injection H4 as <- Hfirst.
  apply vbind_ok in H3 as (s5 & caption & H5 & H3). apply vcall_ok in H5.
  apply vbind_ok in H3 as (s6 & [] & H6 & H3).
  unfold print in H6. injection H6 as <-.
  injection H3 as <- <-. injection H as <-.
  exists (Torch.unsqueeze_0 first), caption. split.
  - unfold first_sample. cbn [fst]. now rewrite Hfirst.
  - cbn [val_trace]. rewrite H5, H2, H1, <- !app_assoc. reflexivity.
Qed.

(** X26: on a loader that yields nothing the validation loop only moves
    the model to the device and puts it in evaluation mode. *)
Theorem val_step_empty_loader (s s' : VSt) :
  val_step model [] loss writer epoch device word2_idx idx2_word s
  = (s', Ok tt) ->
  val_trace s' = val_trace s ++ [ValModelTo device; ValModelEval].
Proof.
  unfold val_step. intros H.
  apply vbind_ok in H as (s1 & [] & H1 & H). apply vcall_ok in H1.
  apply vbind_ok in H as (s2 & [] & H2 & H). apply vcall_ok in H2.
  cbn [for_each_break] in H. injection H as <-.
  rewrite H2, H1, <- app_assoc. reflexivity.
Qed.
End ValFacts.

Lemma val_step_calls_witness :
  val_step sample_val_model [sample_batch; empty_batch] tt tt 3%Z "cpu"
    sample_word2_idx sample_idx2_word (ValState tt [])
  = (ValState tt [ValModelTo "cpu"; ValModelEval;
                  ValGenerateCaption (Tensor [1; 1; 1] [0]);
                  ValPrint "<s> a dog </s>"], Ok tt)
  /\ exists image caption,
       first_sample (fst sample_batch) = Ok image
       /\ val_trace (ValState tt [ValModelTo "cpu"; ValModelEval;
                                  ValGenerateCaption (Tensor [1; 1; 1] [0]);
                                  ValPrint "<s> a dog </s>"])
          = val_trace (ValState tt [])
              ++ [ValModelTo "cpu"; ValModelEval;
                  ValGenerateCaption image; ValPrint caption].
Proof.
  assert (H : val_step sample_val_model [sample_batch; empty_batch] tt tt
                3%Z "cpu" sample_word2_idx sample_idx2_word (ValState tt [])
              = (ValState tt [ValModelTo "cpu"; ValModelEval;
                              ValGenerateCaption (Tensor [1; 1; 1] [0]);
                              ValPrint "<s> a dog </s>"], Ok tt))
    by reflexivity.
  split; [exact H|].
  exact (val_step_calls sample_val_model tt tt 3%Z "cpu" sample_word2_idx
           sample_idx2_word sample_batch [empty_batch] (ValState tt []) _ H).
Defined.

Lemma val_step_empty_loader_witness :
  val_step sample_val_model [] tt tt 3%Z "cpu"
    sample_word2_idx sample_idx2_word (ValState tt [])
  = (ValState tt [ValModelTo "cpu"; ValModelEval], Ok tt)
  /\ val_trace (ValState (Pix:=nat) (Caption:=string) tt
                  [ValModelTo "cpu"; ValModelEval])
     = val_trace (ValState tt []) ++ [ValModelTo "cpu"; ValModelEval].
Proof.
  assert (H : val_step sample_val_model [] tt tt 3%Z "cpu"
                sample_word2_idx sample_idx2_word (ValState tt [])
              = (ValState tt [ValModelTo "cpu"; ValModelEval], Ok tt))
    by reflexivity.
  split; [exact H|].
  exact (val_step_empty_loader sample_val_model tt tt 3%Z "cpu"
           sample_word2_idx sample_idx2_word (ValState tt []) _ H).
Defined.

(** ** The splitting of the images *)

(** X27: whatever the cut points, the train, validation and test lists are
    consecutive pieces of the list of images: put end to end in this
    order they give it back, so no image is lost, repeated or moved. *)
Theorem split_images_partition {A : Type} (cut : nat -> nat)
  (images_list : list A) :
  fst (fst (split_images cut images_list))
  ++ snd (fst (split_images cut images_list))
  ++ snd (split_images cut images_list)
  = images_list.
Proof.
  unfold split_images. cbn [fst snd].
  rewrite app_assoc, firstn_skipn. apply firstn_skipn.
Qed.
